(** * Sparkline: a shallow embedding of SimplePlot's rendering engine

    The development follows [Sparkline.h] (namespaces [SparklineHelpers]
    and [Sparkline]) as it is built by the repository: the macro
    [USE_UNICODE_GRAPHICS] is defined, [WITH_TEXTDECORATOR] is not, so the
    glyph tables are the Unicode ones and [RED], [BLUE], [GREEN] are the
    identity on their argument.

    Numbers.  The template parameter [T] is instantiated at [float], as
    [main.cpp] and the showcase functions do.  Finite floating-point
    values are modelled by exact rationals ([Q], compared with [==]), so
    rounding is idealised; the special results of a division by zero
    (infinities and not-a-number) are kept apart in [float_val], because
    the code converts such a value to [int].  [size_t] values are integers
    of [Z] with the wrap-around modulo [2^64] written where the code
    subtracts; [int] is the 32-bit two's complement range.

    Output.  The [std::ostringstream] is modelled by the string of bytes
    written to it (UTF-8 for the block and box-drawing glyphs). *)

From Stdlib Require Import ZArith QArith Qround Qabs List String Ascii Lia Bool.
From Stdlib Require Import DecimalString Lqa.
Import ListNotations.

Open Scope Z_scope.

(** ** Machine integers *)

(** Unsigned 64-bit wrap-around of a [size_t] computation. *)
Definition size_t (z : Z) : Z := z mod 2 ^ 64.

(** Unsigned 32-bit wrap-around ([unsigned int]). *)
Definition uint (z : Z) : Z := z mod 2 ^ 32.

Definition INT_MIN : Z := - 2 ^ 31.
Definition INT_MAX : Z := 2 ^ 31 - 1.

(** Conversion of an integer value to [int] (modular, as the compilers the
    code targets implement it). *)
Definition int (z : Z) : Z := (z + 2 ^ 31) mod 2 ^ 32 - 2 ^ 31.

(** The indices [lo, lo+1, ..., hi-1] of a counting [for] loop. *)
Definition zrange (lo hi : Z) : list Z :=
  map (fun k => lo + Z.of_nat k) (seq 0 (Z.to_nat (hi - lo))).

(** ** Outcomes of a call: a value, a thrown [std::runtime_error], or
    behaviour the language leaves undefined. *)
Inductive result (A : Type) : Type :=
| Ok (a : A)
| Throw (what : string)
| Undefined.
Arguments Ok {A} a.
Arguments Throw {A} what.
Arguments Undefined {A}.

Definition bind {A B : Type} (r : result A) (k : A -> result B) : result B :=
  match r with
  | Ok a => k a
  | Throw w => Throw w
  | Undefined => Undefined
  end.

Notation "x <- r ;; k" := (bind r (fun x => k))
  (at level 61, r at next level, right associativity).

(** Results of the loop body for every element of [l], in order. *)
Fixpoint mapM {A B : Type} (f : A -> result B) (l : list A) : result (list B) :=
  match l with
  | [] => Ok []
  | a :: l' => b <- f a ;; bs <- mapM f l' ;; Ok (b :: bs)
  end.

(** ** Floating-point values *)

Definition Qlt_bool (a b : Q) : bool := negb (Qle_bool b a).

(** [std::min(a, b)] is [(b < a) ? b : a]; [std::max(a, b)] is
    [(a < b) ? b : a]. *)
Definition std_min (a b : Q) : Q := if Qlt_bool b a then b else a.
Definition std_max (a b : Q) : Q := if Qlt_bool a b then b else a.

(** [std::numeric_limits<float>::max()], the largest finite value
    [(2^24 - 1) * 2^104], and [std::numeric_limits<float>::min()], the
    smallest positive normal value [2^-126]. *)
Definition T_max : Q := inject_Z ((2 ^ 24 - 1) * 2 ^ 104).
Definition T_min : Q := 1 # (2 ^ 126).

(** The value of a floating-point expression that may have divided by
    zero. *)
Inductive float_val : Type :=
| Finite (q : Q)
| Infinite (negative : bool)
| NaN.

(** [a / b] on finite operands; the zero a subtraction of equal finite
    values yields is the positive one. *)
Definition fdiv (a b : Q) : float_val :=
  if Qeq_bool b 0
  then (if Qeq_bool a 0 then NaN else Infinite (Qlt_bool a 0))
  else Finite (a / b).

(** [f * levels] with [levels] a [size_t] converted to floating point. *)
Definition fmul_size (f : float_val) (levels : Z) : float_val :=
  match f with
  | Finite q => Finite (q * inject_Z levels)
  | Infinite s => if levels =? 0 then NaN else Infinite s
  | NaN => NaN
  end.

Definition std_floor (f : float_val) : float_val :=
  match f with
  | Finite q => Finite (inject_Z (Qfloor q))
  | other => other
  end.

(** Conversion of a floating-point value to [int]: defined only when the
    truncated value is representable. *)
Definition float_to_int (f : float_val) : option Z :=
  match f with
  | Finite q =>
      let z := Qfloor q in
      if (INT_MIN <=? z) && (z <=? INT_MAX) then Some z else None
  | _ => None
  end.

(** ** Strings *)

Open Scope string_scope.
Open Scope Z_scope.

Definition nl : string := String (ascii_of_nat 10) "".

(** [k] copies of [s], as written by a loop of [k] insertions. *)
Fixpoint replicate (k : nat) (s : string) : string :=
  match k with
  | O => ""
  | S k' => s ++ replicate k' s
  end.

Definition strlen (s : string) : Z := Z.of_nat (String.length s).

(** [operator<<] on a [size_t]: its decimal digits. *)
Definition print_size (z : Z) : string :=
  NilZero.string_of_uint (N.to_uint (Z.to_N z)).

(** A single blank written under [std::setw(w)] with fill character
    blank: [w] blanks, and one when [w] is below one.  The argument of
    [std::setw] is an [int]. *)
Definition setw_blank (w : Z) : string :=
  replicate (Z.to_nat (Z.max 1 (int w))) " ".

(** Text written under [std::left] and [std::setw(w)]: padded with blanks
    on the right up to [w] bytes. *)
Definition setw_left (w : Z) (s : string) : string :=
  s ++ replicate (Z.to_nat (w - strlen s)) " ".


Fixpoint occurs_inb (needle hay : string) : bool :=
  String.prefix needle hay ||
  match hay with
  | EmptyString => false
  | String _ hay' => occurs_inb needle hay'
  end.

Definition concat_all (l : list string) : string := String.concat "" l.

(** ** namespace SparklineHelpers *)
Module SparklineHelpers.

(** The number of decimal digits of [n], none for zero. *)
Fixpoint digits (fuel : nat) (n : Z) : Z :=
  match fuel with
  | O => 0
  | S fuel' => if n <=? 0 then 0 else 1 + digits fuel' (n / 10)
  end.

(** [CharLength(n)] is [std::ceil(log10(n+1))]: the least [k] with
    [n + 1 <= 10^k].  A [size_t] has at most twenty digits. *)
Definition CharLength (n : Z) : Z := digits 20 n.

End SparklineHelpers.

(** ** namespace Sparkline *)
Module Sparkline.

Import SparklineHelpers.

Definition PREC : Z := 12.
Definition ENCLOSURE_WIDTH : Z := PREC + 8.

(** Available ticks, U+2581 to U+2588. *)
Definition ticks : list string :=
  ["▁"; "▂"; "▃"; "▄"; "▅"; "▆"; "▇"; "█"].
Definition TICKS : Z := 8.

(** Box outline characters. *)
Definition BOX_NW_CORNER : string := "╭".
Definition BOX_NE_CORNER : string := "╮".
Definition BOX_SW_CORNER : string := "╰".
Definition BOX_SE_CORNER : string := "╯".
Definition BOX_H_BORDER : string := "─".
Definition BOX_H_BORDER_TICK : string := "┬".
Definition BOX_V_BORDER : string := "│".
Definition BOX_V_BORDER_TICK : string := "├".

(** [class Configuration], with the constructor's default arguments. *)
Record Configuration : Type := mkConfiguration {
  this_many_lines_high : Z;
  this_many_characters_wide : Z;
  enclose_in_box : bool;
  print_colored : bool;
  title : string;
  minv : Q;
  maxv : Q
}.

Definition default_Configuration : Configuration :=
  mkConfiguration 1 0 false true "" T_max T_min.

Definition setHeight (v : Z) (c : Configuration) : Configuration :=
  mkConfiguration v (this_many_characters_wide c) (enclose_in_box c)
    (print_colored c) (title c) (minv c) (maxv c).
Definition setWidth (v : Z) (c : Configuration) : Configuration :=
  mkConfiguration (this_many_lines_high c) v (enclose_in_box c)
    (print_colored c) (title c) (minv c) (maxv c).
Definition setBox (v : bool) (c : Configuration) : Configuration :=
  mkConfiguration (this_many_lines_high c) (this_many_characters_wide c) v
    (print_colored c) (title c) (minv c) (maxv c).
Definition setColor (v : bool) (c : Configuration) : Configuration :=
  mkConfiguration (this_many_lines_high c) (this_many_characters_wide c)
    (enclose_in_box c) v (title c) (minv c) (maxv c).
Definition setTitle (v : string) (c : Configuration) : Configuration :=
  mkConfiguration (this_many_lines_high c) (this_many_characters_wide c)
    (enclose_in_box c) (print_colored c) v (minv c) (maxv c).
Definition setMin (v : Q) (c : Configuration) : Configuration :=
  mkConfiguration (this_many_lines_high c) (this_many_characters_wide c)
    (enclose_in_box c) (print_colored c) (title c) v (maxv c).
Definition setMax (v : Q) (c : Configuration) : Configuration :=
  mkConfiguration (this_many_lines_high c) (this_many_characters_wide c)
    (enclose_in_box c) (print_colored c) (title c) (minv c) v.

Section Render.

(** The value [SparklineHelpers::TerminalWidth()] reads from the terminal
    (an [unsigned short]), and the text [operator<<] of the standard
    library writes for a value of type [T]. *)
Variable TerminalWidth : Z.
Variable print_T : Q -> string.

(** [data[i]]; the caller passes at least [number_of_data_points]
    elements. *)
Definition at_index (data : list Q) (i : Z) : Q := nth (Z.to_nat i) data 0%Q.

(** The loop adapting [minv] and [maxv] to the data range. *)
Definition data_range (data : list Q) (number_of_data_points : Z)
    (minv maxv : Q) : Q * Q :=
  fold_left
    (fun (acc : Q * Q) (i : Z) =>
       (std_min (fst acc) (at_index data i), std_max (snd acc) (at_index data i)))
    (zrange 0 number_of_data_points) (minv, maxv).

(** "Use provided min/max values or adapt to data range". *)
Definition resolve_range (data : list Q) (number_of_data_points : Z)
    (minv maxv : Q) : Q * Q :=
  let minv := std_min minv T_max in
  let maxv := std_max maxv T_min in
  if Qeq_bool minv T_max && Qeq_bool maxv T_min
  then data_range data number_of_data_points minv maxv
  else (minv, maxv).

(** "If the plot could spill over the terminal boundaries, then limit its
    width": the value of [this_many_characters_wide] after that block. *)
Definition resolve_width (enclose_in_box : bool)
    (this_many_characters_wide number_of_data_points : Z) : Z :=
  let max_width := TerminalWidth in
  let max_width :=
    if enclose_in_box then size_t (max_width - ENCLOSURE_WIDTH) else max_width in
  let this_many_characters_wide :=
    if this_many_characters_wide =? 0 then number_of_data_points
    else this_many_characters_wide in
  if max_width <? this_many_characters_wide then max_width
  else this_many_characters_wide.

(** "Interpolate data points": the value of [bins[i]] after iteration [i]
    of the loop.  The loop runs only for [0 <= i < W] with [1 <= W <= N],
    where [w_scale] is positive. *)
Definition bin (data : list Q) (number_of_data_points W i : Z) : Q :=
  let w_scale := (inject_Z W / inject_Z number_of_data_points)%Q in
  let lower := (inject_Z i / w_scale)%Q in
  let upper := (inject_Z (i + 1) / w_scale)%Q in
  let mass_per_bin := (1 / w_scale)%Q in
  let b := 0%Q in
  let b := (b + (1 - (lower - inject_Z (Qfloor lower)))
                * at_index data (Qfloor lower))%Q in
  let b := fold_left (fun acc j => (acc + at_index data j)%Q)
             (zrange (Qfloor lower + 1) (Qfloor upper)) b in
  let b := if Qfloor upper <? number_of_data_points
           then (b + (upper - inject_Z (Qfloor upper))
                     * at_index data (Qfloor upper))%Q
           else b in
  (b / mass_per_bin)%Q.

Definition bins (data : list Q) (number_of_data_points W : Z) : list Q :=
  map (bin data number_of_data_points W) (zrange 0 W).

(** "Begin box (upper border)". *)
Definition top_border (W : Z) (title : string) : string :=
  if String.eqb title "" then
    BOX_NW_CORNER ++ replicate (Z.to_nat W) BOX_H_BORDER ++ BOX_NE_CORNER ++ nl
  else if strlen title >? W then
    title ++ nl
  else
    let filler := W - strlen title in
    BOX_NW_CORNER
    ++ replicate (Z.to_nat (filler / 2)) BOX_H_BORDER
    ++ title
    ++ replicate (Z.to_nat (W - (filler / 2 + strlen title))) BOX_H_BORDER
    ++ BOX_NE_CORNER ++ nl.

(** [levels]: the highest fill level of a plot of that many lines. *)
Definition levels (this_many_lines_high : Z) : Z :=
  size_t (this_many_lines_high * TICKS - 1).

(** The value of [index] for a bin. *)
Definition level (minv maxv : Q) (levels : Z) (b : Q) : option Z :=
  let _data := std_min maxv (std_max minv b) in
  let fraction := fdiv (_data - minv) (maxv - minv) in
  float_to_int (std_floor (fmul_size fraction levels)).

(** The glyph written for one bin on the line whose levels are
    [this_line_min_index .. this_line_max_index]. *)
Definition cell (minv maxv : Q) (levels this_line_min_index this_line_max_index : Z)
    (b : Q) : result string :=
  match level minv maxv levels b with
  | None => Undefined
  | Some index =>
      Ok (if index <? this_line_min_index then " "
          else if index >? this_line_max_index
               then nth (Z.to_nat (TICKS - 1)) ticks ""
               else nth (Z.to_nat (index - this_line_min_index)) ticks "")
  end.

(** The value shown beside an interior line ("middle" level of the line). *)
Definition middle_value (this_many_lines_high line : Z) (minv maxv : Q) : Q :=
  (inject_Z (uint (line * TICKS + 4)) * (maxv - minv)
   / inject_Z (size_t (this_many_lines_high * TICKS)) + minv)%Q.

(** "Right box border and min/max value marks". *)
Definition right_border (this_many_lines_high line : Z) (minv maxv : Q) : string :=
  if this_many_lines_high =? 1 then
    BOX_V_BORDER_TICK ++ " min: " ++ setw_left PREC (print_T minv)
    ++ ", max: " ++ setw_left PREC (print_T maxv)
  else if line =? int this_many_lines_high - 1 then
    BOX_V_BORDER_TICK ++ " max: " ++ print_T maxv
  else if line =? 0 then
    BOX_V_BORDER_TICK ++ " min: " ++ print_T minv
  else
    BOX_V_BORDER_TICK ++ "      "
    ++ print_T (middle_value this_many_lines_high line minv maxv).

(** One iteration of the loop over [line]. *)
Definition plot_line (bins : list Q) (this_many_lines_high : Z)
    (enclose_in_box : bool) (minv maxv : Q) (line : Z) : result string :=
  let this_line_min_index := int (uint (line * TICKS)) in
  let this_line_max_index := int (uint (this_line_min_index + (TICKS - 1))) in
  cells <- mapM (cell minv maxv (levels this_many_lines_high)
                   this_line_min_index this_line_max_index) bins ;;
  Ok ((if enclose_in_box then BOX_V_BORDER else "")
      ++ concat_all cells
      ++ (if enclose_in_box
          then right_border this_many_lines_high line minv maxv else "")
      ++ (if line >? 0 then nl else "")).

(** The lines of the plot, from [(int)this_many_lines_high-1] down to 0. *)
Definition plot_lines (bins : list Q) (this_many_lines_high : Z)
    (enclose_in_box : bool) (minv maxv : Q) : result (list string) :=
  mapM (plot_line bins this_many_lines_high enclose_in_box minv maxv)
    (rev (zrange 0 (int this_many_lines_high))).

(** "Compute tick marks positions". *)
Definition sep : Z := 2.

Definition x_ticks_separation (number_of_data_points : Z) : Z :=
  2 * sep + CharLength number_of_data_points.

Definition x_ticks_number (W number_of_data_points : Z) : Z :=
  W / x_ticks_separation number_of_data_points + 1.

(** The arrays [x_ticks] and [x_ticks_values] once filled: the loop over
    [i < x_ticks_number-1], then the last entry. *)
Definition x_ticks (W number_of_data_points : Z) : list Z :=
  (map (fun i => i * x_ticks_separation number_of_data_points)
     (zrange 0 (x_ticks_number W number_of_data_points - 1))
   ++ [size_t (W - 1)])%list.

Definition x_ticks_values (W number_of_data_points : Z) : list Z :=
  (map (fun i => i * number_of_data_points / x_ticks_number W number_of_data_points)
     (zrange 0 (x_ticks_number W number_of_data_points - 1))
   ++ [number_of_data_points])%list.

(** The lower border between the corners: a tick mark at every column that
    is the next entry of [x_ticks]. *)
Fixpoint lower_border (x_ticks : list Z) (columns : list Z) (next_tick : nat)
    : string :=
  match columns with
  | [] => ""
  | i :: columns' =>
      if i =? nth next_tick x_ticks 0
      then BOX_H_BORDER_TICK ++ lower_border x_ticks columns' (S next_tick)
      else BOX_H_BORDER ++ lower_border x_ticks columns' next_tick
  end.

(** One iteration of the loop writing the inner tick values; the state is
    the text written so far and [current_col]. *)
Definition tick_value_step (x_ticks_separation : Z) (x_ticks_values : list Z)
    (st : string * Z) (i : Z) : string * Z :=
  let current_col := snd st in
  let tmp := CharLength (nth (Z.to_nat i) x_ticks_values 0) in
  let current_col := current_col + tmp in
  let rw := tmp - tmp / 2 in
  let tmp := CharLength (nth (Z.to_nat (i - 1)) x_ticks_values 0) in
  let lw := tmp / 2 in
  let tofill := size_t (x_ticks_separation - rw - lw) in
  (fst st ++ setw_blank tofill
     ++ print_size (nth (Z.to_nat i) x_ticks_values 0),
   current_col + tofill).

(** "X-ticks values": the line of labels under the box. *)
Definition tick_values_line (W number_of_data_points : Z) : string :=
  let k := x_ticks_number W number_of_data_points in
  let xs := x_ticks W number_of_data_points in
  let vs := x_ticks_values W number_of_data_points in
  let st :=
    fold_left (tick_value_step (x_ticks_separation number_of_data_points) vs)
      (zrange 1 (k - 1))
      (nl ++ " " ++ print_size (nth 0 vs 0), 1) in
  fst st
  ++ setw_blank (size_t (nth (Z.to_nat (k - 1)) xs 0 - snd st
                         - CharLength number_of_data_points + 2))
  ++ print_size (nth (Z.to_nat (k - 1)) vs 0)
  ++ nl.

(** "Finish box (lower border and sample index marks)". *)
Definition bottom_box (W number_of_data_points : Z) : string :=
  nl ++ BOX_SW_CORNER
  ++ lower_border (x_ticks W number_of_data_points) (zrange 0 W) 0
  ++ BOX_SE_CORNER
  ++ tick_values_line W number_of_data_points.

(** [Sparkline( data, number_of_data_points, ... )], the overload all the
    others call. *)
Definition Sparkline (data : list Q) (number_of_data_points : Z)
    (this_many_lines_high this_many_characters_wide : Z)
    (enclose_in_box print_colored : bool) (title : string)
    (minv maxv : Q) : result string :=
  let range := resolve_range data number_of_data_points minv maxv in
  let W := resolve_width enclose_in_box this_many_characters_wide
             number_of_data_points in
  if W >? number_of_data_points then Throw "Woops! Not implemented.."
  else
    lines <- plot_lines (bins data number_of_data_points W)
               this_many_lines_high enclose_in_box (fst range) (snd range) ;;
    Ok ((if enclose_in_box then top_border W title else "")
        ++ concat_all lines
        ++ (if enclose_in_box then bottom_box W number_of_data_points else "")).

(** The overload taking a [Configuration]. *)
Definition Sparkline_config (data : list Q) (number_of_data_points : Z)
    (config : Configuration) : result string :=
  Sparkline data number_of_data_points
    (this_many_lines_high config) (this_many_characters_wide config)
    (enclose_in_box config) (print_colored config) (title config)
    (minv config) (maxv config).

(** The overload taking a [std::vector]: the pointer to its first element
    and its size. *)
Definition Sparkline_vector (data : list Q)
    (this_many_lines_high this_many_characters_wide : Z)
    (enclose_in_box print_colored : bool) (title : string)
    (minv maxv : Q) : result string :=
  let ptr := data in
  Sparkline ptr (Z.of_nat (List.length data))
    this_many_lines_high this_many_characters_wide
    enclose_in_box print_colored title minv maxv.

(** The overload taking a [std::vector] and a [Configuration]. *)
Definition Sparkline_vector_config (data : list Q) (config : Configuration)
    : result string :=
  Sparkline_vector data
    (this_many_lines_high config) (this_many_characters_wide config)
    (enclose_in_box config) (print_colored config) (title config)
    (minv config) (maxv config).

(** [ShowExampleGaussian()]. *)
Definition gaussian_data_vec : list Q :=
  [ 0.000514092998764; 0.00147728280398; 0.00379866200793;
    0.0087406296979; 0.0179969888377; 0.0331590462642; 0.054670024892;
    0.080656908173; 0.106482668507; 0.125794409231; 0.132980760134;
    0.125794409231; 0.106482668507; 0.080656908173; 0.054670024892;
    0.0331590462642; 0.0179969888377; 0.0087406296979; 0.00379866200793;
    0.00147728280398; 0.000514092998764 ]%Q.

Definition ShowExampleGaussian : result string :=
  let config := default_Configuration in
  let config := setHeight 3 config in
  let config := setMin 0 config in
  let config := setMax 0.15 config in
  let config := setBox true config in
  let config := setTitle "Gaussian" config in
  let config := setColor false config in
  Sparkline_vector_config gaussian_data_vec config.

End Render.


End Sparkline.

(** ** namespace TextDecorator

    [TextDecorator.h], the text styling the macros [RED], [BLUE] and
    [GREEN] of [Sparkline.h] call when [WITH_TEXTDECORATOR] is defined.
    The debug messages go to [std::cout], not into the text returned, and
    are left out. *)
Module TextDecorator.

(** [enum Value]: the user-exposed formatting codes. *)
Inductive Value : Type :=
| Default | Red | Green | Blue | Black | Bold | Underline | Inverse.

Definition code (v : Value) : Z :=
  match v with
  | Default => 0
  | Red => Z.shiftl 1 0
  | Green => Z.shiftl 1 1
  | Blue => Z.shiftl 1 2
  | Black => Z.shiftl 1 3
  | Bold => Z.shiftl 1 4
  | Underline => Z.shiftl 1 5
  | Inverse => Z.shiftl 1 6
  end.

(** [class TextDecorator]: the members the constructor's arguments set. *)
Record TextDecorator : Type := mkTextDecorator {
  m_action : bool;
  m_debug : bool
}.

(** [m_SGR_map], from formatting code to SGR parameter. *)
Definition m_SGR_map : list (Z * Z) :=
  [ (code Default, 0); (code Red, 31); (code Green, 32); (code Blue, 34);
    (code Black, 30); (code Bold, 1); (code Underline, 4); (code Inverse, 7) ].

(** [std::map::at]: the value of a key, an exception for a key the map
    does not hold. *)
Fixpoint map_at (m : list (Z * Z)) (key : Z) : result Z :=
  match m with
  | [] => Throw "map::at"
  | (k, v) :: m' => if key =? k then Ok v else map_at m' key
  end.

(** [_ProcessSingleSGR]; the state is the text in [oss] and the two
    arguments passed by reference, [codepoint] and [active]. *)
Definition _ProcessSingleSGR (st : string * Z * Z) (SGR : Z)
    : result (string * Z * Z) :=
  let oss := fst (fst st) in
  let codepoint := snd (fst st) in
  let active := snd st in
  if Z.land codepoint SGR =? 0 then Ok st
  else
    param <- map_at m_SGR_map SGR ;;
    let oss := oss ++ print_size param in
    let oss := if active >? 1 then oss ++ ";" else oss in
    Ok (oss, Z.lxor codepoint SGR, uint (active - 1)).

(** "Count the number of set bits in format" (algorithm by Brian
    Kernighan): the values of [n] and [active] after the loop, stopped
    after [fuel] iterations at the latest. *)
Fixpoint count_set_bits (fuel : nat) (n active : Z) : Z * Z :=
  match fuel with
  | O => (n, active)
  | S fuel' =>
      if n =? 0 then (n, active)
      else count_set_bits fuel' (Z.land n (uint (n - 1))) (uint (active + 1))
  end.

(** ESC and the Control Sequence Introducer. *)
Definition CSI : string := String (ascii_of_nat 27) "[".

(** [decorate( input, format, override_action )].  An [unsigned int] has
    32 bits, so the counting loop makes at most 32 iterations. *)
Definition decorate (TD : TextDecorator) (input : string) (format : Z)
    (override_action : bool) : result string :=
  if (format =? 0) || (negb (m_action TD) && negb override_action)
  then Ok input
  else
    let active := snd (count_set_bits 32 format 0) in
    let oss := CSI in
    st <- _ProcessSingleSGR (oss, format, active) (code Red) ;;
    st <- _ProcessSingleSGR st (code Green) ;;
    st <- _ProcessSingleSGR st (code Blue) ;;
    st <- _ProcessSingleSGR st (code Black) ;;
    st <- _ProcessSingleSGR st (code Bold) ;;
    st <- _ProcessSingleSGR st (code Underline) ;;
    st <- _ProcessSingleSGR st (code Inverse) ;;
    Ok (fst (fst st) ++ "m" ++ input ++ CSI ++ "m").

(** The deprecated [decorate( input, color, face, override_action )]. *)
Definition decorate_legacy (TD : TextDecorator) (input : string)
    (color face : Value) (override_action : bool) : result string :=
  decorate TD input (uint (code color + code face)) override_action.

(** The predefined styles.  An argument of type [Value] selects the
    deprecated overload, a combination of several the other one. *)
Definition warning (TD : TextDecorator) (input : string) : result string :=
  decorate TD input (Z.lor (code Red) (code Bold)) false.
Definition error (TD : TextDecorator) (input : string) : result string :=
  decorate TD input (Z.lor (Z.lor (code Red) (code Bold)) (code Inverse)) false.
Definition red (TD : TextDecorator) (input : string) : result string :=
  decorate_legacy TD input Red Default false.
Definition green (TD : TextDecorator) (input : string) : result string :=
  decorate_legacy TD input Green Default false.
Definition blue (TD : TextDecorator) (input : string) : result string :=
  decorate_legacy TD input Blue Default false.
Definition black (TD : TextDecorator) (input : string) : result string :=
  decorate_legacy TD input Black Default false.
Definition bold (TD : TextDecorator) (input : string) : result string :=
  decorate_legacy TD input Bold Default false.
Definition underline (TD : TextDecorator) (input : string) : result string :=
  decorate_legacy TD input Underline Default false.
Definition inverse (TD : TextDecorator) (input : string) : result string :=
  decorate_legacy TD input Inverse Default false.

End TextDecorator.

(** ** main.cpp

    The program: the options of the command line, the samples read from
    the standard input, the plot written to the standard output.  The
    conversions [std::atof] and [std::atoi] are those of the standard
    library and the samples are the values the extraction from [std::cin]
    yields before it fails or the input ends; the messages about
    unrecognized options go to [std::cerr] and are left out. *)
Module Main.

Definition EXIT_SUCCESS : Z := 0.
Definition EXIT_FAILURE : Z := 1.

(** The local variables the options set, with their initial values. *)
Record Settings : Type := mkSettings {
  maxv : Q;
  minv : Q;
  height : Z;
  width : Z;
  title : string;
  box : bool;
  color : bool
}.

Definition initial : Settings :=
  mkSettings T_min T_max 10 0 "SimplePlot" true true.

(** What the loop over the arguments ends with: the usage was asked for,
    or the settings to plot with. *)
Inductive Parsed : Type :=
| Help
| Run (s : Settings).

Section Program.

Variable atof : string -> Q.
Variable atoi : string -> Z.
Variable TerminalWidth : Z.
Variable print_T : Q -> string.

(** The loop over [argv[1]], ..., [argv[argc-1]].  An option that takes a
    value and is the last argument ends the loop
    ([INCREMENT_i_AND_CHECK]). *)
Fixpoint parse (args : list string) (s : Settings) : Parsed :=
  match args with
  | [] => Run s
  | arg :: rest =>
      if String.eqb arg "-h" || String.eqb arg "--help" then Help
      else if String.eqb arg "--max" then
        match rest with
        | [] => Run s
        | v :: rest' =>
            parse rest' (mkSettings (atof v) (minv s) (height s) (width s)
                           (title s) (box s) (color s))
        end
      else if String.eqb arg "--min" then
        match rest with
        | [] => Run s
        | v :: rest' =>
            parse rest' (mkSettings (maxv s) (atof v) (height s) (width s)
                           (title s) (box s) (color s))
        end
      else if String.eqb arg "--height" then
        match rest with
        | [] => Run s
        | v :: rest' =>
            parse rest' (mkSettings (maxv s) (minv s) (atoi v) (width s)
                           (title s) (box s) (color s))
        end
      else if String.eqb arg "--width" then
        match rest with
        | [] => Run s
        | v :: rest' =>
            parse rest' (mkSettings (maxv s) (minv s) (height s) (atoi v)
                           (title s) (box s) (color s))
        end
      else if String.eqb arg "--title" then
        match rest with
        | [] => Run s
        | v :: rest' =>
            parse rest' (mkSettings (maxv s) (minv s) (height s) (width s)
                           v (box s) (color s))
        end
      else if String.eqb arg "--no-box" then
        parse rest (mkSettings (maxv s) (minv s) (height s) (width s)
                      (title s) false (color s))
      else if String.eqb arg "--no-color" then
        parse rest (mkSettings (maxv s) (minv s) (height s) (width s)
                      (title s) (box s) false)
      else parse rest s
  end.

(** The text written for [-h] and [--help]. *)
Definition usage (argv0 example : string) : string :=
  "Usage: " ++ argv0 ++ " [options]" ++ nl
  ++ nl
  ++ "Plot stuff like this:" ++ nl ++ nl
  ++ example ++ nl
  ++ "Values to be plotted are read from STDIN." ++ nl
  ++ nl
  ++ "Options:" ++ nl
  ++ "  --max      " ++ "Upper plot y-limit" ++ nl
  ++ "  --min      " ++ "Lower plot y-limit" ++ nl
  ++ "  --height   " ++ "Plot height in lines" ++ nl
  ++ "  --width    " ++ "Plot width in characters" ++ nl
  ++ "  --title    " ++ "Plot title" ++ nl
  ++ "  --no-box   " ++ "Disable enclosing box" ++ nl
  ++ "  --no-color " ++ "Disable color output" ++ nl
  ++ nl.

(** [main]: the exit code and the text written to the standard output; an
    exception nothing catches ends the program.  The [int] settings
    [height] and [width] are converted to [size_t]. *)
Definition main (argv0 : string) (args : list string) (data : list Q)
    : result (Z * string) :=
  match parse args initial with
  | Help =>
      example <- Sparkline.ShowExampleGaussian TerminalWidth print_T ;;
      Ok (EXIT_FAILURE, usage argv0 example)
  | Run s =>
      plot <- Sparkline.Sparkline TerminalWidth print_T data
                (Z.of_nat (List.length data))
                (size_t (height s)) (size_t (width s))
                (box s) (color s) (title s) (minv s) (maxv s) ;;
      Ok (EXIT_SUCCESS, plot ++ nl)
  end.

End Program.

End Main.

(** ** A printer for the examples

    The default formatting of a floating-point value by [operator<<]
    ([%g] with six significant digits), computed on the exact rational:
    fixed notation when the decimal exponent lies in [-4, 6), scientific
    notation otherwise, trailing zeros removed. *)

Definition ndigits (n : Z) : Z :=
  SparklineHelpers.digits (S (Z.to_nat (Z.log2 n))) n.

(** The decimal exponent [X] with [10^X <= q < 10^(X+1)], for [0 < q]. *)
Definition decimal_exponent (q : Q) : Z :=
  let X := ndigits (Qnum q) - ndigits (Zpos (Qden q)) in
  if Qle_bool (Qpower 10 X) q then X else X - 1.

(** Rounding to the nearest integer, ties to even. *)
Definition round_half_even (q : Q) : Z :=
  let f := Qfloor q in
  let r := (q - inject_Z f)%Q in
  if Qlt_bool (1 # 2) r then f + 1
  else if Qeq_bool r (1 # 2) then (if Z.even f then f else f + 1)
  else f.

Fixpoint strip_zeros_rev (s : list ascii) : list ascii :=
  match s with
  | "0"%char :: s' => strip_zeros_rev s'
  | _ => s
  end.

Definition strip_trailing_zeros (s : string) : string :=
  string_of_list_ascii
    (rev (strip_zeros_rev (rev (list_ascii_of_string s)))).

Definition with_fraction (int_part frac : string) : string :=
  let frac := strip_trailing_zeros frac in
  if String.eqb frac "" then int_part else int_part ++ "." ++ frac.

Definition print_float (q : Q) : string :=
  if Qeq_bool q 0 then "0"
  else
    let sign := if Qlt_bool q 0 then "-" else "" in
    let a := Qabs q in
    let X := decimal_exponent a in
    let m := round_half_even (a * Qpower 10 (5 - X)) in
    let X := if m =? 10 ^ 6 then X + 1 else X in
    let m := if m =? 10 ^ 6 then 10 ^ 5 else m in
    let ds := print_size m in
    if (X <? -4) || (6 <=? X) then
      sign
      ++ with_fraction (String.substring 0 1 ds) (String.substring 1 5 ds)
      ++ "e" ++ (if X <? 0 then "-" else "+")
      ++ (if Z.abs X <? 10 then "0" else "") ++ print_size (Z.abs X)
    else if 0 <=? X then
      sign
      ++ with_fraction (String.substring 0 (Z.to_nat (X + 1)) ds)
           (String.substring (Z.to_nat (X + 1)) (Z.to_nat (5 - X)) ds)
    else
      sign ++ with_fraction "0" (replicate (Z.to_nat (- X - 1)) "0" ++ ds).

(** ** Notions used by the statements *)

(** Sum of a list of values. *)
Definition Qsum (l : list Q) : Q := fold_right Qplus 0%Q l.

(** The line of a plot without columns: the borders and the value marks
    only. *)
Definition empty_line (print_T : Q -> string) (rows : Z) (box : bool)
    (minv maxv : Q) (line : Z) : string :=
  (if box then Sparkline.BOX_V_BORDER else "")
  ++ (if box then Sparkline.right_border print_T rows line minv maxv else "")
  ++ (if line >? 0 then nl else "").

(** The mass of the series over [0, x): the samples before [floor x] and
    the fraction [x - floor x] of the sample at [floor x]. *)
Definition mass_upto (data : list Q) (x : Q) : Q :=
  (Qsum (map (Sparkline.at_index data) (zrange 0 (Qfloor x)))
   + (x - inject_Z (Qfloor x)) * Sparkline.at_index data (Qfloor x))%Q.

(** The number of characters of a UTF-8 text: its bytes other than the
    continuation bytes [10xxxxxx]. *)
Definition is_continuation (c : ascii) : bool :=
  (128 <=? Z.of_nat (nat_of_ascii c)) && (Z.of_nat (nat_of_ascii c) <? 192).

Fixpoint display_width (s : string) : Z :=
  match s with
  | EmptyString => 0
  | String c s' => (if is_continuation c then 0 else 1) + display_width s'
  end.

(** A text of seven-bit characters only. *)
Fixpoint is_ascii (s : string) : bool :=
  match s with
  | EmptyString => true
  | String c s' => (Z.of_nat (nat_of_ascii c) <? 128) && is_ascii s'
  end.

(** The number of ones in the binary numeral of a number. *)
Fixpoint pos_ones (p : positive) : Z :=
  match p with
  | xH => 1
  | xO q => pos_ones q
  | xI q => 1 + pos_ones q
  end.

Definition ones (n : Z) : Z :=
  match n with
  | Zpos p => pos_ones p
  | _ => 0
  end.

(** The SGR parameters of the flags set in [format], in the order
    [decorate] goes through the flags: bit 0 is red (31), bit 1 green
    (32), bit 2 blue (34), bit 3 black (30), bit 4 bold (1), bit 5
    underline (4), bit 6 inverse (7). *)
Definition sgr_parameters (format : Z) : list string :=
  map (fun v => print_size (snd v))
    (filter (fun v => Z.testbit format (fst v))
       [ (0, 31); (1, 32); (2, 34); (3, 30); (4, 1); (5, 4); (6, 7) ]).

(** A setting differs between [s] and [s'] only when its own option is
    among the arguments. *)
Definition kept (args : list string) (s s' : Main.Settings) : Prop :=
  (~ In "--max" args -> Main.maxv s' = Main.maxv s) /\
  (~ In "--min" args -> Main.minv s' = Main.minv s) /\
  (~ In "--height" args -> Main.height s' = Main.height s) /\
  (~ In "--width" args -> Main.width s' = Main.width s) /\
  (~ In "--title" args -> Main.title s' = Main.title s) /\
  (~ In "--no-box" args -> Main.box s' = Main.box s) /\
  (~ In "--no-color" args -> Main.color s' = Main.color s).

(** * Properties *)

Import Sparkline.

(** ** Loops and lists *)

Lemma zrange_length (lo hi : Z) :
  List.length (zrange lo hi) = Z.to_nat (hi - lo).
Proof.
  unfold zrange. now rewrite length_map, length_seq.
Qed.

Lemma zrange_empty (lo hi : Z) : hi <= lo -> zrange lo hi = [].
Proof.
  intros H. unfold zrange.
  replace (Z.to_nat (hi - lo)) with 0%nat by lia. reflexivity.
Qed.

Lemma zrange_nth (lo hi : Z) (k : nat) (d : Z) :
  (k < Z.to_nat (hi - lo))%nat -> nth k (zrange lo hi) d = lo + Z.of_nat k.
Proof.
  intros H. unfold zrange.
  rewrite (nth_indep _ d (lo + Z.of_nat 0)) by (now rewrite length_map, length_seq).
  rewrite (map_nth (fun k => lo + Z.of_nat k)).
  now rewrite seq_nth.
Qed.

Lemma list_as_map_nth {A : Type} (d : A) (l : list A) :
  l = map (fun k => nth k l d) (seq 0 (List.length l)).
Proof.
  induction l as [| a l IH]; simpl; [reflexivity |].
  f_equal. rewrite <- seq_shift, map_map. exact IH.
Qed.

Lemma Qsum_map_ext {A : Type} (f g : A -> Q) (l : list A) :
  (forall a, In a l -> f a == g a) -> Qsum (map f l) == Qsum (map g l).
Proof.
  induction l as [| a l IH]; intros H; simpl; [reflexivity |].
  apply Qplus_comp.
  - apply H. now left.
  - apply IH. intros b Hb. apply H. now right.
Qed.

(** ** Binner *)

Lemma inject_Z_nonzero (n : Z) : n <> 0 -> ~ inject_Z n == 0.
Proof.
  intros H E. apply H.
  now apply (proj1 (inject_Z_injective n 0)).
Qed.

(** With as many columns as samples the slice of column [i] is [i, i+1). *)
Lemma slice_identity (N i : Z) :
  N <> 0 -> inject_Z i / (inject_Z N / inject_Z N) == inject_Z i.
Proof.
  intros H. field. now apply inject_Z_nonzero.
Qed.

Lemma bin_identity (data : list Q) (N i : Z) :
  1 <= N -> bin data N N i == at_index data i.
Proof.
  intros HN. assert (HN0 : N <> 0) by lia.
  unfold bin.
  rewrite (Qfloor_comp _ _ (slice_identity N i HN0)).
  rewrite (Qfloor_comp _ _ (slice_identity N (i + 1) HN0)).
  rewrite !Qfloor_Z.
  rewrite (zrange_empty (i + 1) (i + 1)) by lia. simpl fold_left.
  pose proof (inject_Z_nonzero N HN0) as Hq.
  destruct (i + 1 <? N); field; auto.
Qed.

(** C1. Identity resampling: for a series of [N >= 1] samples binned into
    [W = N] columns, bin [i] equals sample [i] exactly, and so the bins sum
    to what the series sums to. *)
Theorem bins_identity_resampling (data : list Q) (N : Z) :
  1 <= N -> N = Z.of_nat (List.length data) ->
  List.length (bins data N N) = List.length data /\
  (forall i, 0 <= i < N -> at_index (bins data N N) i == at_index data i) /\
  Qsum (bins data N N) == Qsum data.
Proof.
  intros HN Hlen. split; [| split].
  - unfold bins. rewrite length_map, zrange_length. lia.
  - intros i Hi. unfold bins, at_index at 1.
    rewrite (nth_indep _ 0%Q (bin data N N 0))
      by (rewrite length_map, zrange_length; lia).
    rewrite map_nth, zrange_nth by lia.
    replace (0 + Z.of_nat (Z.to_nat i)) with i by lia.
    now apply bin_identity.
  - unfold bins, zrange. rewrite map_map.
    replace (Z.to_nat (N - 0)) with (List.length data) by lia.
    apply Qeq_trans
      with (Qsum (map (fun k => nth k data 0%Q) (seq 0 (List.length data)))).
    + apply Qsum_map_ext. intros k _.
      rewrite bin_identity by exact HN.
      unfold at_index. now rewrite Z.add_0_l, Nat2Z.id.
    + now rewrite <- (list_as_map_nth 0%Q data).
Qed.

Lemma bins_identity_resampling_witness :
  List.length (bins [3; 1; 4]%Q 3 3) = 3%nat /\
  (forall i, 0 <= i < 3 ->
     at_index (bins [3; 1; 4]%Q 3 3) i == at_index [3; 1; 4]%Q i) /\
  Qsum (bins [3; 1; 4]%Q 3 3) == Qsum [3; 1; 4]%Q.
Proof.
  apply (bins_identity_resampling [3; 1; 4]%Q 3); [lia | reflexivity].
Defined.

(** ** Quantizer *)

Lemma Qlt_bool_iff (a b : Q) : Qlt_bool a b = true <-> (a < b)%Q.
Proof.
  unfold Qlt_bool. rewrite negb_true_iff. split.
  - intros H. apply Qnot_le_lt. intros Hle.
    apply Qle_bool_iff in Hle. congruence.
  - intros H. destruct (Qle_bool b a) eqn:E; [| reflexivity].
    apply Qle_bool_iff in E. lra.
Qed.

Lemma Qlt_bool_false (a b : Q) : Qlt_bool a b = false <-> (b <= a)%Q.
Proof.
  unfold Qlt_bool. rewrite negb_false_iff. apply Qle_bool_iff.
Qed.

(** [std::min(maxv, std::max(minv, v))] lies in the range, at [minv] for a
    value below it and at [maxv] for a value above it. *)
Lemma clamp_spec (minv maxv v : Q) :
  (minv < maxv)%Q ->
  let d := std_min maxv (std_max minv v) in
  (minv <= d <= maxv)%Q /\
  ((v < minv)%Q -> d = minv) /\ ((maxv < v)%Q -> d = maxv).
Proof.
  intros Hlt. unfold std_min, std_max.
  destruct (Qlt_bool minv v) eqn:E1.
  - apply Qlt_bool_iff in E1.
    destruct (Qlt_bool v maxv) eqn:E2.
    + apply Qlt_bool_iff in E2. repeat split; intros; lra.
    + apply Qlt_bool_false in E2. repeat split; intros; try lra; reflexivity.
  - apply Qlt_bool_false in E1.
    destruct (Qlt_bool minv maxv) eqn:E2.
    + repeat split; intros; try lra; reflexivity.
    + apply Qlt_bool_false in E2. lra.
Qed.

Lemma levels_small (rows : Z) :
  1 <= rows < 2 ^ 28 -> levels rows = rows * TICKS - 1.
Proof.
  intros H. unfold levels, size_t, TICKS. apply Z.mod_small. lia.
Qed.

(** On a range that is not flat the level is the floor of the scaled
    fraction, when that is an [int]. *)
Lemma level_nonflat (minv maxv : Q) (L : Z) (v : Q) :
  (minv < maxv)%Q ->
  level minv maxv L v =
  let z := Qfloor ((std_min maxv (std_max minv v) - minv) / (maxv - minv)
                   * inject_Z L)%Q in
  if (INT_MIN <=? z) && (z <=? INT_MAX) then Some z else None.
Proof.
  intros Hlt. unfold level, fdiv.
  destruct (Qeq_bool (maxv - minv) 0) eqn:E.
  - apply Qeq_bool_iff in E. lra.
  - unfold fmul_size, std_floor, float_to_int. now rewrite Qfloor_Z.
Qed.

(** C4. Range clamping: on a range with [minValue < maxValue] a value below
    the range is at level 0 exactly, a value above it at level
    [L = rows*levelsPerRow - 1] exactly, and no value has a level outside
    [0, L]. *)
Theorem level_clamped (rows : Z) (minv maxv v : Q) :
  1 <= rows < 2 ^ 28 -> (minv < maxv)%Q ->
  let L := rows * TICKS - 1 in
  ((v < minv)%Q -> level minv maxv (levels rows) v = Some 0) /\
  ((maxv < v)%Q -> level minv maxv (levels rows) v = Some L) /\
  (exists l, level minv maxv (levels rows) v = Some l /\ 0 <= l <= L).
Proof.
  intros Hrows Hlt L.
  rewrite (levels_small rows Hrows). fold L.
  assert (HL : 0 <= L < 2 ^ 31) by (unfold L, TICKS; lia).
  rewrite (level_nonflat minv maxv L v Hlt).
  destruct (clamp_spec minv maxv v Hlt) as [[Hlo Hhi] [Hbelow Habove]].
  set (d := std_min maxv (std_max minv v)) in *.
  set (f := ((d - minv) / (maxv - minv))%Q).
  assert (Hf0 : (0 <= f)%Q).
  { unfold f. apply Qle_shift_div_l; lra. }
  assert (Hf1 : (f <= 1)%Q).
  { unfold f. apply Qle_shift_div_r; lra. }
  assert (HLq : (0 <= inject_Z L)%Q).
  { change 0%Q with (inject_Z 0). rewrite <- Zle_Qle. lia. }
  assert (Hz0 : 0 <= Qfloor (f * inject_Z L)%Q).
  { rewrite <- (Qfloor_Z 0). apply Qfloor_resp_le.
    change (inject_Z 0) with 0%Q. now apply Qmult_le_0_compat. }
  assert (Hz1 : Qfloor (f * inject_Z L)%Q <= L).
  { rewrite <- (Qfloor_Z L) at 2. apply Qfloor_resp_le.
    rewrite <- (Qmult_1_l (inject_Z L)) at 2.
    now apply Qmult_le_compat_r. }
  assert (Hint : forall z, 0 <= z <= L ->
            (if (INT_MIN <=? z) && (z <=? INT_MAX) then Some z else None)
            = Some z).
  { intros z Hz. unfold INT_MIN, INT_MAX.
    destruct (Z.leb_spec (- 2 ^ 31) z); [| lia].
    destruct (Z.leb_spec z (2 ^ 31 - 1)); [reflexivity | lia]. }
  cbv zeta. fold f. rewrite (Hint _ (conj Hz0 Hz1)).
  split; [| split].
  - intros Hv. f_equal.
    assert (E : (f * inject_Z L == inject_Z 0)%Q).
    { unfold f. rewrite (Hbelow Hv). change (inject_Z 0) with 0%Q.
      field. lra. }
    rewrite (Qfloor_comp _ _ E). apply Qfloor_Z.
  - intros Hv. f_equal.
    assert (E : (f * inject_Z L == inject_Z L)%Q).
    { unfold f. rewrite (Habove Hv). field. lra. }
    rewrite (Qfloor_comp _ _ E). apply Qfloor_Z.
  - eexists. split; [reflexivity | lia].
Qed.

Lemma level_clamped_witness :
  ((-1 < 0)%Q -> level 0 10 (levels 3) (-1) = Some 0) /\
  ((10 < -1)%Q -> level 0 10 (levels 3) (-1) = Some (3 * TICKS - 1)) /\
  (exists l, level 0 10 (levels 3) (-1) = Some l /\ 0 <= l <= 3 * TICKS - 1).
Proof.
  apply (level_clamped 3 0 10 (-1)); [lia | reflexivity].
Defined.

(** On a flat range the clamped value is [maxv] itself. *)
Lemma clamp_flat (minv maxv v : Q) :
  (minv == maxv)%Q -> std_min maxv (std_max minv v) = maxv.
Proof.
  intros E. unfold std_min, std_max.
  destruct (Qlt_bool minv v) eqn:E1.
  - apply Qlt_bool_iff in E1.
    destruct (Qlt_bool v maxv) eqn:E2; [| reflexivity].
    apply Qlt_bool_iff in E2. lra.
  - destruct (Qlt_bool minv maxv) eqn:E2; [| reflexivity].
    apply Qlt_bool_iff in E2. lra.
Qed.




(** ** Failures of the render *)

(** A loop whose body never throws does not throw. *)
Lemma mapM_no_throw {A B : Type} (f : A -> result B) (l : list A) :
  (forall a what, f a <> Throw what) -> forall what, mapM f l <> Throw what.
Proof.
  intros Hf. induction l as [| a l IH]; intros what; simpl; [discriminate |].
  destruct (f a) eqn:Ea; simpl.
  - destruct (mapM f l) eqn:El; simpl; try discriminate.
    intros E. injection E as E. now apply (IH what0).
  - now destruct (Hf a what0).
  - discriminate.
Qed.

(** A loop whose body always succeeds collects the values of its body. *)
Lemma mapM_ok {A B : Type} (f : A -> result B) (g : A -> B) (l : list A) :
  (forall a, f a = Ok (g a)) -> mapM f l = Ok (map g l).
Proof.
  intros Hf. induction l as [| a l IH]; simpl; [reflexivity |].
  now rewrite Hf, IH.
Qed.

Lemma cell_no_throw (minv maxv : Q) (L lo hi : Z) (b : Q) (what : string) :
  cell minv maxv L lo hi b <> Throw what.
Proof.
  unfold cell. destruct (level minv maxv L b); discriminate.
Qed.

Section Failures.

Variable print_T : Q -> string.

Lemma plot_line_no_throw (bs : list Q) (rows : Z) (box : bool)
    (minv maxv : Q) (line : Z) (what : string) :
  plot_line print_T bs rows box minv maxv line <> Throw what.
Proof.
  unfold plot_line.
  match goal with |- context [mapM ?f bs] =>
    pose proof (mapM_no_throw f bs
                  (fun a w => cell_no_throw _ _ _ _ _ a w)) as H;
    destruct (mapM f bs) eqn:E
  end; simpl; try discriminate.
  intros E'. injection E' as E'. now apply (H what0).
Qed.

Lemma plot_lines_no_throw (bs : list Q) (rows : Z) (box : bool)
    (minv maxv : Q) (what : string) :
  plot_lines print_T bs rows box minv maxv <> Throw what.
Proof.
  unfold plot_lines. apply mapM_no_throw. intros a w.
  apply plot_line_no_throw.
Qed.

Lemma plot_lines_no_columns (rows : Z) (box : bool) (minv maxv : Q) :
  plot_lines print_T [] rows box minv maxv
  = Ok (map (empty_line print_T rows box minv maxv)
          (rev (zrange 0 (int rows)))).
Proof.
  unfold plot_lines. apply mapM_ok. intros line. reflexivity.
Qed.

End Failures.

Section Throwing.

Variable TerminalWidth : Z.
Variable print_T : Q -> string.

(** C3, as the code has it.  The render throws exactly when the effective
    column count exceeds the number of samples; a series without samples
    is no failure by itself.  With an effective column count of zero (and
    any number of samples, none included) the render returns a plot whose
    lines have no cell. *)
Theorem throws_iff_wider_than_data (data : list Q) (N rows cols : Z)
    (box color : bool) (title : string) (minv maxv : Q) :
  let W := resolve_width TerminalWidth box cols N in
  let range := resolve_range data N minv maxv in
  ((exists what,
      Sparkline TerminalWidth print_T data N rows cols box color title
        minv maxv = Throw what)
   <-> W > N) /\
  (W = 0 -> 0 <= N ->
   Sparkline TerminalWidth print_T data N rows cols box color title minv maxv
   = Ok ((if box then top_border 0 title else "")
         ++ concat_all (map (empty_line print_T rows box (fst range) (snd range))
                          (rev (zrange 0 (int rows))))
         ++ (if box then bottom_box 0 N else ""))).
Proof.
  intros W range. unfold Sparkline. fold W. fold range. split.
  - destruct (Z.gtb_spec W N) as [Hgt | Hle].
    + split; [lia | intros _; eauto].
    + split; [| lia]. intros [what E]. exfalso.
      destruct (plot_lines print_T (bins data N W) rows box
                  (fst range) (snd range)) eqn:El; simpl in E;
        try discriminate.
      injection E as E.
      now apply (plot_lines_no_throw print_T (bins data N W) rows box
                   (fst range) (snd range) what0).
  - intros HW HN. rewrite HW.
    destruct (Z.gtb_spec 0 N) as [Hgt | Hle]; [lia |].
    change (bins data N 0) with (@nil Q).
    now rewrite plot_lines_no_columns.
Qed.

End Throwing.

Lemma throws_iff_wider_than_data_witness :
  Sparkline 0 print_float [1; 2]%Q 2 1 0 false true "" 0 4 = Ok "".
Proof.
  apply (proj2 (throws_iff_wider_than_data 0 print_float [1; 2]%Q 2 1 0
                  false true "" 0 4)); [reflexivity | lia].
Defined.

(** C3 fails as stated: without samples, and no width asked for, the render
    returns (an empty text) instead of signalling a failure. *)
Lemma no_samples_counterexample :
  Sparkline 80 print_float [] 0 1 0 false true "" T_max T_min = Ok "" /\
  ~ (exists what,
       Sparkline 80 print_float [] 0 1 0 false true "" T_max T_min
       = Throw what).
Proof.
  split; [vm_compute; reflexivity |].
  intros [what E]. vm_compute in E. discriminate.
Qed.

(** ** Bottom axis *)

Lemma digits_nonneg (fuel : nat) (n : Z) : 0 <= SparklineHelpers.digits fuel n.
Proof.
  revert n. induction fuel as [| fuel IH]; intros n;
    cbn [SparklineHelpers.digits]; [lia |].
  destruct (n <=? 0); [lia |]. specialize (IH (n / 10)). lia.
Qed.

Lemma x_ticks_separation_min (N : Z) : 4 <= x_ticks_separation N.
Proof.
  unfold x_ticks_separation, sep, SparklineHelpers.CharLength.
  pose proof (digits_nonneg 20 N). lia.
Qed.

(** A plot at least as wide as one tick interval has its first tick at
    column 0 with value 0, its last tick at the last column with value
    [N], and tick [i] in between at column [i * x_ticks_separation] with
    value [i * N / x_ticks_number]. *)
Lemma wide_plot_ticks (W N : Z) :
  x_ticks_separation N <= W < 2 ^ 64 ->
  let k := x_ticks_number W N in
  2 <= k /\
  nth 0 (x_ticks W N) 0 = 0 /\ nth 0 (x_ticks_values W N) 0 = 0 /\
  nth (Z.to_nat (k - 1)) (x_ticks W N) 0 = W - 1 /\
  nth (Z.to_nat (k - 1)) (x_ticks_values W N) 0 = N /\
  (forall i, 0 <= i < k - 1 ->
     nth (Z.to_nat i) (x_ticks W N) 0 = i * x_ticks_separation N /\
     nth (Z.to_nat i) (x_ticks_values W N) 0 = i * N / k).
Proof.
  intros HW k. pose proof (x_ticks_separation_min N) as Hs.
  assert (Hk : 2 <= k).
  { unfold k, x_ticks_number.
    assert (1 <= W / x_ticks_separation N); [| lia].
    apply Z.div_le_lower_bound; lia. }
  assert (Hinner : forall i, 0 <= i < k - 1 ->
     nth (Z.to_nat i) (x_ticks W N) 0 = i * x_ticks_separation N /\
     nth (Z.to_nat i) (x_ticks_values W N) 0 = i * N / k).
  { intros i Hi. unfold x_ticks, x_ticks_values. fold k.
    rewrite !app_nth1 by (rewrite length_map, zrange_length; lia).
    rewrite (nth_indep _ 0 (0 * x_ticks_separation N))
      by (rewrite length_map, zrange_length; lia).
    rewrite (map_nth (fun i => i * x_ticks_separation N)).
    rewrite (nth_indep (map _ _) 0 (0 * N / k))
      by (rewrite length_map, zrange_length; lia).
    rewrite (map_nth (fun i => i * N / k)).
    rewrite zrange_nth by lia.
    now replace (0 + Z.of_nat (Z.to_nat i)) with i by lia. }
  assert (Hlen : forall f : Z -> Z,
            Z.to_nat (k - 1) = List.length (map f (zrange 0 (k - 1)))).
  { intros f. rewrite length_map, zrange_length. lia. }
  split; [exact Hk |].
  destruct (Hinner 0 ltac:(lia)) as [H0 H0'].
  split; [exact H0 |]. split; [exact H0' |].
  split; [| split; [| exact Hinner]].
  - unfold x_ticks. fold k. rewrite (Hlen (fun i => i * x_ticks_separation N)).
    rewrite nth_middle. unfold size_t. apply Z.mod_small. lia.
  - unfold x_ticks_values. fold k. rewrite (Hlen (fun i => i * N / k)).
    now rewrite nth_middle.
Qed.

(** C5 at the plots that are narrower than one tick interval: there is a
    single tick, at the last column, valued [N]; the line of labels writes
    that one value twice and no label 0. *)
Theorem narrow_plot_single_tick (W N : Z) :
  0 <= W < x_ticks_separation N ->
  x_ticks W N = [size_t (W - 1)] /\
  x_ticks_values W N = [N] /\
  tick_values_line W N =
    nl ++ " " ++ print_size N
    ++ setw_blank (size_t (size_t (W - 1) - 1
                           - SparklineHelpers.CharLength N + 2))
    ++ print_size N ++ nl.
Proof.
  intros HW.
  assert (Hk : x_ticks_number W N = 1).
  { unfold x_ticks_number. rewrite Z.div_small by lia. reflexivity. }
  assert (Hx : x_ticks W N = [size_t (W - 1)]).
  { unfold x_ticks. now rewrite Hk. }
  assert (Hv : x_ticks_values W N = [N]).
  { unfold x_ticks_values. now rewrite Hk. }
  repeat split; try assumption.
  unfold tick_values_line. rewrite Hk, Hx, Hv. reflexivity.
Qed.

Lemma narrow_plot_single_tick_witness :
  x_ticks 3 3 = [2] /\
  x_ticks_values 3 3 = [3] /\
  tick_values_line 3 3 = nl ++ " 3  3" ++ nl.
Proof.
  apply (narrow_plot_single_tick 3 3). vm_compute. split; discriminate || reflexivity.
Defined.

(** ** Box *)

Lemma str_app_assoc (a b c : string) : (a ++ b) ++ c = a ++ (b ++ c).
Proof.
  induction a as [| ch a IH]; simpl; [reflexivity | now rewrite IH].
Qed.



Section Box.

Variable TerminalWidth : Z.
Variable print_T : Q -> string.


End Box.



(** ** Value range *)

Lemma std_min_self (a : Q) : std_min a a = a.
Proof.
  unfold std_min. now destruct (Qlt_bool a a).
Qed.

Lemma std_max_self (a : Q) : std_max a a = a.
Proof.
  unfold std_max. now destruct (Qlt_bool a a).
Qed.




(** ** Value marks *)

Section Marks.

Variable print_T : Q -> string.


End Marks.



(** ** Width *)

(** The width asked for, the number of samples standing in for zero. *)
Lemma resolve_width_le_requested (tw : Z) (box : bool) (cols N : Z) :
  resolve_width tw box cols N <= (if cols =? 0 then N else cols).
Proof.
  unfold resolve_width.
  destruct (Z.ltb_spec
              (if box then size_t (tw - ENCLOSURE_WIDTH) else tw)
              (if cols =? 0 then N else cols)); lia.
Qed.

(** On a terminal at least as wide as the box overhead the plot body is
    clamped to what the terminal leaves. *)
Lemma resolve_width_clamped (tw : Z) (box : bool) (cols N : Z) :
  ENCLOSURE_WIDTH <= tw < 2 ^ 16 ->
  resolve_width tw box cols N
  <= (if box then tw - ENCLOSURE_WIDTH else tw).
Proof.
  intros Htw. unfold resolve_width, size_t, ENCLOSURE_WIDTH, PREC in *.
  rewrite (Z.mod_small (tw - (12 + 8))) by lia.
  destruct box;
    match goal with |- context [?a <? ?b] => destruct (Z.ltb_spec a b) end;
    lia.
Qed.

(** C9 on a terminal narrower than the box overhead: the subtraction of
    the overhead wraps around, and the width of a boxed plot is not
    clamped at all; it is the width asked for (the number of samples for
    zero). *)
Theorem narrow_terminal_not_clamped (tw cols N : Z) :
  0 <= tw < ENCLOSURE_WIDTH -> 0 <= cols < 2 ^ 63 -> 0 <= N < 2 ^ 63 ->
  resolve_width tw true cols N = (if cols =? 0 then N else cols).
Proof.
  intros Htw Hcols HN.
  unfold resolve_width, size_t, ENCLOSURE_WIDTH, PREC in *.
  assert (E : (tw - (12 + 8)) mod 2 ^ 64 = tw - 20 + 2 ^ 64).
  { symmetry. apply (Z.mod_unique _ _ (-1)); lia. }
  rewrite E.
  match goal with |- context [?a <? ?b] => destruct (Z.ltb_spec a b) end;
    [| reflexivity].
  destruct (cols =? 0); lia.
Qed.

Lemma narrow_terminal_not_clamped_witness :
  resolve_width 10 true 0 15 = 15.
Proof.
  apply (narrow_terminal_not_clamped 10 0 15); unfold ENCLOSURE_WIDTH, PREC; lia.
Defined.

(** ** Overloads *)

Section Overloads.

Variable TerminalWidth : Z.
Variable print_T : Q -> string.

(** C10. The overload taking a [Configuration] returns what the overload
    taking the arguments one by one returns on the fields of the
    configuration (height, width, box, color, title, minv, maxv, in that
    order); the overloads taking a vector return what the ones taking a
    pointer return on the elements of the vector and their number. *)
Theorem overloads_agree (data : list Q) (N : Z) (config : Configuration)
    (rows cols : Z) (box color : bool) (caption : string) (lo hi : Q) :
  Sparkline_config TerminalWidth print_T data N config
  = Sparkline TerminalWidth print_T data N
      (this_many_lines_high config) (this_many_characters_wide config)
      (enclose_in_box config) (print_colored config) (title config)
      (minv config) (maxv config) /\
  Sparkline_vector TerminalWidth print_T data rows cols box color caption lo hi
  = Sparkline TerminalWidth print_T data (Z.of_nat (List.length data))
      rows cols box color caption lo hi /\
  Sparkline_vector_config TerminalWidth print_T data config
  = Sparkline_config TerminalWidth print_T data (Z.of_nat (List.length data))
      config.
Proof.
  repeat split.
Qed.

End Overloads.

(** ** The example of the README

    On a terminal 80 columns wide [ShowExampleGaussian] returns the plot
    the README shows. *)
Example ShowExampleGaussian_output :
  ShowExampleGaussian 80 print_float
  = Ok ("╭──────Gaussian───────╮" ++ nl
        ++ "│        ▁▄▅▄▁        ├ max: 0.15" ++ nl
        ++ "│      ▁▅█████▅▁      ├      0.075" ++ nl
        ++ "│▁▁▁▂▃▆█████████▆▃▂▁▁▁├ min: 0" ++ nl
        ++ "╰┬─────┬─────┬───────┬╯" ++ nl
        ++ " 0     5     10      21" ++ nl).
Proof.
  vm_compute. reflexivity.
Qed.

(** * Further properties *)

(** ** Binner: conservation of mass *)

Lemma Qsum_app (l1 l2 : list Q) : (Qsum (l1 ++ l2) == Qsum l1 + Qsum l2)%Q.
Proof.
  induction l1 as [| a l1 IH]; simpl.
  - ring.
  - rewrite IH. ring.
Qed.

Lemma map_seq_shift {A : Type} (f : nat -> A) (a n s : nat) :
  map f (seq (a + s) n) = map (fun k => f (a + k)%nat) (seq s n).
Proof.
  revert s. induction n as [| n IH]; intros s; simpl; [reflexivity |].
  f_equal. rewrite <- IH. now rewrite Nat.add_succ_r.
Qed.

Lemma zrange_split (lo mid hi : Z) :
  lo <= mid <= hi -> zrange lo hi = (zrange lo mid ++ zrange mid hi)%list.
Proof.
  intros H. unfold zrange.
  replace (Z.to_nat (hi - lo)) with (Z.to_nat (mid - lo) + Z.to_nat (hi - mid))%nat
    by lia.
  rewrite seq_app, map_app. f_equal.
  rewrite <- (Nat.add_0_r (0 + Z.to_nat (mid - lo))).
  rewrite (map_seq_shift (fun k => lo + Z.of_nat k)).
  apply map_ext. intros k. lia.
Qed.

Lemma zrange_single (a : Z) : zrange a (a + 1) = [a].
Proof.
  unfold zrange. replace (Z.to_nat (a + 1 - a)) with 1%nat by lia.
  simpl. f_equal. lia.
Qed.

(** The accumulation loop adds the sum of the visited samples. *)
Lemma fold_left_Qsum {A : Type} (g : A -> Q) (l : list A) (init : Q) :
  (fold_left (fun acc j => acc + g j) l init == init + Qsum (map g l))%Q.
Proof.
  revert init. induction l as [| a l IH]; intros init; simpl.
  - ring.
  - rewrite IH. ring.
Qed.

Lemma Qsum_scale {A : Type} (g : A -> Q) (c : Q) (l : list A) :
  (Qsum (map g l) * c == Qsum (map (fun a => g a * c) l))%Q.
Proof.
  induction l as [| a l IH]; simpl.
  - ring.
  - rewrite <- IH. ring.
Qed.

(** A sum of consecutive differences telescopes. *)
Lemma Qsum_telescope (G : Z -> Q) (n : nat) (lo : Z) :
  (Qsum (map (fun i : Z => G (i + 1)%Z - G i) (zrange lo (lo + Z.of_nat n)))
   == G (lo + Z.of_nat n)%Z - G lo)%Q.
Proof.
  revert lo. induction n as [| n IH]; intros lo.
  - replace (lo + Z.of_nat 0) with lo by lia.
    rewrite zrange_empty by lia. simpl. ring.
  - rewrite (zrange_split lo (lo + 1)) by lia.
    replace (lo + Z.of_nat (S n)) with (lo + 1 + Z.of_nat n) by lia.
    rewrite zrange_single, map_app, Qsum_app, IH. simpl. ring.
Qed.

Lemma Qsum_data (data : list Q) :
  (Qsum (map (at_index data) (zrange 0 (Z.of_nat (List.length data))))
   == Qsum data)%Q.
Proof.
  unfold zrange. rewrite map_map, Z.sub_0_r, Nat2Z.id.
  apply Qeq_trans
    with (Qsum (map (fun k => nth k data 0%Q) (seq 0 (List.length data)))).
  - apply Qsum_map_ext. intros k _. unfold at_index.
    now rewrite Z.add_0_l, Nat2Z.id.
  - now rewrite <- (list_as_map_nth 0%Q data).
Qed.

(** The slice boundaries: non-negative, at least one sample apart, and
    within the series. *)
Lemma slice_bounds (N W i : Z) :
  1 <= W <= N -> 0 <= i < W ->
  let w := (inject_Z W / inject_Z N)%Q in
  (0 <= inject_Z i / w)%Q /\
  (inject_Z i / w + 1 <= inject_Z (i + 1) / w)%Q /\
  (inject_Z (i + 1) / w <= inject_Z N)%Q.
Proof.
  intros HW Hi w.
  assert (HWq : (0 < inject_Z W)%Q).
  { change 0%Q with (inject_Z 0). rewrite <- Zlt_Qlt. lia. }
  assert (HNq : (0 < inject_Z N)%Q).
  { change 0%Q with (inject_Z 0). rewrite <- Zlt_Qlt. lia. }
  assert (HWN : (inject_Z W <= inject_Z N)%Q) by (rewrite <- Zle_Qle; lia).
  assert (Hiq : (0 <= inject_Z i)%Q).
  { change 0%Q with (inject_Z 0). rewrite <- Zle_Qle. lia. }
  assert (Hi1 : (inject_Z (i + 1) <= inject_Z W)%Q) by (rewrite <- Zle_Qle; lia).
  assert (Hx : forall j, (inject_Z j / w == inject_Z j * inject_Z N / inject_Z W)%Q).
  { intros j. unfold w. field. split; lra. }
  rewrite !Hx. rewrite inject_Z_plus. change (inject_Z 1) with 1%Q.
  repeat split.
  - apply Qle_shift_div_l; [exact HWq |]. rewrite Qmult_0_l.
    apply Qmult_le_0_compat; lra.
  - apply Qle_shift_div_l; [exact HWq |].
    setoid_replace ((inject_Z i * inject_Z N / inject_Z W + 1) * inject_Z W)%Q
      with (inject_Z i * inject_Z N + inject_Z W)%Q by (field; lra).
    nra.
  - apply Qle_shift_div_r; [exact HWq |]. 
    rewrite inject_Z_plus in Hi1. change (inject_Z 1) with 1%Q in Hi1. nra.
Qed.

Lemma Qfloor_succ_le (x y : Q) : (x + 1 <= y)%Q -> Qfloor x + 1 <= Qfloor y.
Proof.
  intros H. rewrite <- (Qfloor_Z (Qfloor x + 1)). apply Qfloor_resp_le.
  rewrite inject_Z_plus. change (inject_Z 1) with 1%Q.
  pose proof (Qfloor_le x). lra.
Qed.

Lemma Qfloor_nonneg (x : Q) : (0 <= x)%Q -> 0 <= Qfloor x.
Proof.
  intros H. rewrite <- (Qfloor_Z 0). now apply Qfloor_resp_le.
Qed.

Lemma Qfloor_le_Z (x : Q) (n : Z) : (x <= inject_Z n)%Q -> Qfloor x <= n.
Proof.
  intros H. rewrite <- (Qfloor_Z n). now apply Qfloor_resp_le.
Qed.

(** The mass a bin stands for is the mass of the series over its slice. *)
Lemma bin_mass (data : list Q) (N W i : Z) :
  1 <= W <= N -> 0 <= i < W ->
  let w := (inject_Z W / inject_Z N)%Q in
  (bin data N W i * (inject_Z N / inject_Z W)
   == mass_upto data (inject_Z (i + 1) / w) - mass_upto data (inject_Z i / w))%Q.
Proof.
  intros HW Hi w.
  destruct (slice_bounds N W i HW Hi) as [H0 [H1 HN]]. fold w in H0, H1, HN.
  assert (HWq : ~ (inject_Z W == 0)%Q) by (apply inject_Z_nonzero; lia).
  assert (HNq : ~ (inject_Z N == 0)%Q) by (apply inject_Z_nonzero; lia).
  unfold bin, mass_upto. fold w.
  set (x := (inject_Z i / w)%Q) in *.
  set (x' := (inject_Z (i + 1) / w)%Q) in *.
  pose proof (Qfloor_nonneg x H0) as Ha.
  pose proof (Qfloor_succ_le x x' H1) as Hab.
  pose proof (Qfloor_le_Z x' N HN) as HbN.
  set (a := Qfloor x) in *. set (b := Qfloor x') in *.
  rewrite (zrange_split 0 a b) by lia.
  rewrite (zrange_split a (a + 1) b) by lia.
  rewrite zrange_single, !map_app, !Qsum_app.
  assert (Hfold :
    forall init,
      (fold_left (fun acc j => acc + at_index data j) (zrange (a + 1) b) init
       == init + Qsum (map (at_index data) (zrange (a + 1) b)))%Q).
  { intros init. apply (fold_left_Qsum (at_index data)). }
  destruct (Z.ltb_spec b N) as [Hlt | Hge].
  - rewrite Hfold. simpl. unfold w. field; repeat split; assumption.
  - assert (Hb : b = N) by lia.
    assert (Hx' : (x' - inject_Z b == 0)%Q).
    { pose proof (Qfloor_le x'). fold b in H. rewrite Hb in *. lra. }
    rewrite Hfold, Hx'. simpl. unfold w. field; repeat split; assumption.
Qed.

Lemma zrange_In (lo hi i : Z) : In i (zrange lo hi) -> lo <= i < hi.
Proof.
  unfold zrange. rewrite in_map_iff. intros [k [E Hk]].
  apply in_seq in Hk. lia.
Qed.

(** X1.  Resampling conserves mass: for [1 <= W <= N] the bins, each standing
    for [N / W] samples ([mass_per_bin]), carry together the sum of the
    series. *)
Theorem bins_conserve_mass (data : list Q) (N W : Z) :
  1 <= W <= N -> N = Z.of_nat (List.length data) ->
  (Qsum (bins data N W) * (inject_Z N / inject_Z W) == Qsum data)%Q.
Proof.
  intros HW Hlen. unfold bins. rewrite Qsum_scale.
  set (w := (inject_Z W / inject_Z N)%Q).
  assert (HWq : ~ (inject_Z W == 0)%Q) by (apply inject_Z_nonzero; lia).
  assert (HNq : ~ (inject_Z N == 0)%Q) by (apply inject_Z_nonzero; lia).
  rewrite (Qsum_map_ext _
             (fun i : Z => (mass_upto data (inject_Z (i + 1) / w)
                            - mass_upto data (inject_Z i / w))%Q)).
  2:{ intros i Hin. apply zrange_In in Hin. now apply bin_mass. }
  replace W with (0 + Z.of_nat (Z.to_nat W)) at 1 by lia.
  rewrite (Qsum_telescope (fun i => mass_upto data (inject_Z i / w))).
  replace (0 + Z.of_nat (Z.to_nat W)) with W by lia.
  assert (E0 : (inject_Z 0 / w == inject_Z 0)%Q).
  { unfold w. field. split; assumption. }
  assert (EW : (inject_Z W / w == inject_Z N)%Q).
  { unfold w. field. split; assumption. }
  unfold mass_upto.
  rewrite (Qfloor_comp _ _ E0), (Qfloor_comp _ _ EW), !Qfloor_Z.
  rewrite E0, EW, Hlen, Qsum_data. simpl. ring.
Qed.

Lemma bins_conserve_mass_witness :
  (Qsum (bins [1; 2; 3; 4; 5]%Q 5 2) * (inject_Z 5 / inject_Z 2)
   == Qsum [1; 2; 3; 4; 5]%Q)%Q.
Proof.
  apply (bins_conserve_mass [1; 2; 3; 4; 5]%Q 5 2); [lia | reflexivity].
Defined.







(** ** Quantizer: levels and cells *)

Lemma int_range (z : Z) :
  0 <= z <= INT_MAX ->
  (if (INT_MIN <=? z) && (z <=? INT_MAX) then Some z else @None Z) = Some z.
Proof.
  intros H. unfold INT_MIN, INT_MAX in *.
  destruct (Z.leb_spec (- 2 ^ 31) z); [| lia].
  destruct (Z.leb_spec z (2 ^ 31 - 1)); [reflexivity | lia].
Qed.

Lemma scaled_fraction_floor (f : Q) (L : Z) :
  (0 <= f <= 1)%Q -> 0 <= L -> 0 <= Qfloor (f * inject_Z L) <= L.
Proof.
  intros [Hf0 Hf1] HL.
  assert (HLq : (0 <= inject_Z L)%Q).
  { change 0%Q with (inject_Z 0). rewrite <- Zle_Qle. lia. }
  split.
  - apply Qfloor_nonneg. now apply Qmult_le_0_compat.
  - apply Qfloor_le_Z. 
    rewrite <- (Qmult_1_l (inject_Z L)) at 2.
    now apply Qmult_le_compat_r.
Qed.

(** On an inverted range the clamped value is [maxv]. *)
Lemma clamp_inverted (minv maxv v : Q) :
  (maxv < minv)%Q -> std_min maxv (std_max minv v) = maxv.
Proof.
  intros H. unfold std_min, std_max.
  destruct (Qlt_bool minv v) eqn:E1.
  - apply Qlt_bool_iff in E1.
    destruct (Qlt_bool v maxv) eqn:E2; [| reflexivity].
    apply Qlt_bool_iff in E2. lra.
  - destruct (Qlt_bool minv maxv) eqn:E2; [| reflexivity].
    apply Qlt_bool_iff in E2. lra.
Qed.

Lemma level_inverted (minv maxv : Q) (L : Z) (v : Q) :
  (maxv < minv)%Q -> 0 <= L <= INT_MAX ->
  level minv maxv L v = Some L.
Proof.
  intros H HL. unfold level. rewrite (clamp_inverted minv maxv v H).
  unfold fdiv. destruct (Qeq_bool (maxv - minv) 0) eqn:E.
  - apply Qeq_bool_iff in E. lra.
  - unfold fmul_size, std_floor, float_to_int. rewrite Qfloor_Z.
    assert (E1 : ((maxv - minv) / (maxv - minv) * inject_Z L == inject_Z L)%Q).
    { field. lra. }
    rewrite (Qfloor_comp _ _ E1), Qfloor_Z. now apply int_range.
Qed.

(** A level that is defined lies in [0, L]. *)
Lemma level_defined (minv maxv : Q) (L : Z) (v : Q) :
  ~ (minv == maxv)%Q -> 0 <= L <= INT_MAX ->
  exists l, level minv maxv L v = Some l /\ 0 <= l <= L.
Proof.
  intros Hne HL.
  destruct (Qlt_le_dec minv maxv) as [Hlt | Hge].
  - rewrite (level_nonflat minv maxv L v Hlt). cbv zeta.
    destruct (clamp_spec minv maxv v Hlt) as [[Hlo Hhi] _].
    set (d := std_min maxv (std_max minv v)) in *.
    assert (Hf : (0 <= (d - minv) / (maxv - minv) <= 1)%Q).
    { split; [apply Qle_shift_div_l | apply Qle_shift_div_r]; lra. }
    pose proof (scaled_fraction_floor _ L Hf (proj1 HL)) as Hz.
    rewrite int_range by lia. eauto.
  - assert (Hlt : (maxv < minv)%Q).
    { destruct (Qle_lt_or_eq _ _ Hge) as [H | H]; [exact H |].
      exfalso. apply Hne. now symmetry. }
    rewrite (level_inverted minv maxv L v Hlt HL). exists L. split; [reflexivity | lia].
Qed.

Lemma level_flat (minv maxv : Q) (L : Z) (v : Q) :
  (minv == maxv)%Q -> level minv maxv L v = None.
Proof.
  intros E. unfold level. rewrite (clamp_flat minv maxv v E). unfold fdiv.
  assert (Z0 : (maxv - minv == 0)%Q) by lra.
  now rewrite (Qeq_eq_bool _ _ Z0).
Qed.

Lemma level_some_range (minv maxv : Q) (L : Z) (v : Q) (idx : Z) :
  0 <= L <= INT_MAX -> level minv maxv L v = Some idx -> 0 <= idx <= L.
Proof.
  intros HL E.
  destruct (Qeq_dec minv maxv) as [Heq | Hne].
  - rewrite (level_flat minv maxv L v Heq) in E. discriminate.
  - destruct (level_defined minv maxv L v Hne HL) as [l [El Hl]].
    congruence.
Qed.

Lemma clamp_monotone (minv maxv v v' : Q) :
  (minv < maxv)%Q -> (v <= v')%Q ->
  (std_min maxv (std_max minv v) <= std_min maxv (std_max minv v'))%Q.
Proof.
  intros Hlt Hv. unfold std_min, std_max.
  destruct (Qlt_bool minv v) eqn:E1; destruct (Qlt_bool minv v') eqn:E2;
    repeat match goal with
           | H : Qlt_bool _ _ = true |- _ => apply Qlt_bool_iff in H
           | H : Qlt_bool _ _ = false |- _ => apply Qlt_bool_false in H
           | |- context [Qlt_bool ?a ?b] => destruct (Qlt_bool a b) eqn:?
           end; lra.
Qed.

(** X4.  The level does not decrease when the value increases. *)
Theorem level_monotone (rows : Z) (minv maxv v v' : Q) :
  1 <= rows < 2 ^ 28 -> (minv < maxv)%Q -> (v <= v')%Q ->
  exists l l',
    level minv maxv (levels rows) v = Some l /\
    level minv maxv (levels rows) v' = Some l' /\ l <= l'.
Proof.
  intros Hrows Hlt Hv.
  rewrite (levels_small rows Hrows).
  set (L := rows * TICKS - 1).
  assert (HL : 0 <= L <= INT_MAX) by (unfold L, TICKS, INT_MAX; lia).
  rewrite !(level_nonflat minv maxv L _ Hlt). cbv zeta.
  destruct (clamp_spec minv maxv v Hlt) as [[Hlo Hhi] _].
  destruct (clamp_spec minv maxv v' Hlt) as [[Hlo' Hhi'] _].
  pose proof (clamp_monotone minv maxv v v' Hlt Hv) as Hd.
  set (d := std_min maxv (std_max minv v)) in *.
  set (d' := std_min maxv (std_max minv v')) in *.
  assert (Hf : (0 <= (d - minv) / (maxv - minv) <= 1)%Q).
  { split; [apply Qle_shift_div_l | apply Qle_shift_div_r]; lra. }
  assert (Hf' : (0 <= (d' - minv) / (maxv - minv) <= 1)%Q).
  { split; [apply Qle_shift_div_l | apply Qle_shift_div_r]; lra. }
  pose proof (scaled_fraction_floor _ L Hf (proj1 HL)) as Hz.
  pose proof (scaled_fraction_floor _ L Hf' (proj1 HL)) as Hz'.
  rewrite !int_range by lia.
  do 2 eexists. split; [reflexivity |]. split; [reflexivity |].
  apply Qfloor_resp_le.
  assert (HLq : (0 <= inject_Z L)%Q).
  { change 0%Q with (inject_Z 0). rewrite <- Zle_Qle. lia. }
  apply Qmult_le_compat_r; [| exact HLq].
  apply Qmult_le_compat_r; [lra |].
  apply Qlt_le_weak, Qinv_lt_0_compat. lra.
Qed.

Lemma level_monotone_witness :
  exists l l',
    level 0 10 (levels 3) 2 = Some l /\
    level 0 10 (levels 3) 7 = Some l' /\ l <= l'.
Proof.
  apply (level_monotone 3 0 10 2 7); [lia | reflexivity | discriminate].
Defined.

(** X5.  On an inverted range, [maxValue < minValue], every value is at the
    highest level: the plot is filled. *)
Theorem inverted_range_all_top (rows : Z) (minv maxv v : Q) :
  1 <= rows < 2 ^ 28 -> (maxv < minv)%Q ->
  level minv maxv (levels rows) v = Some (rows * TICKS - 1).
Proof.
  intros Hrows Hlt. rewrite (levels_small rows Hrows).
  apply level_inverted; [exact Hlt |]. unfold TICKS, INT_MAX. lia.
Qed.

Lemma inverted_range_all_top_witness :
  level 10 0 (levels 3) 2 = Some (3 * TICKS - 1).
Proof.
  apply (inverted_range_all_top 3 10 0 2); [lia | reflexivity].
Defined.

Lemma line_indices (rows line : Z) :
  1 <= rows < 2 ^ 28 -> 0 <= line < rows ->
  int (uint (line * TICKS)) = line * TICKS /\
  int (uint (int (uint (line * TICKS)) + (TICKS - 1))) = line * TICKS + 7.
Proof.
  intros Hrows Hline. unfold int, uint, TICKS.
  rewrite (Z.mod_small (line * 8)) by lia.
  rewrite (Z.mod_small (line * 8 + 2 ^ 31)) by lia.
  replace (line * 8 + 2 ^ 31 - 2 ^ 31) with (line * 8) by lia.
  rewrite (Z.mod_small (line * 8 + (8 - 1))) by lia.
  rewrite (Z.mod_small (line * 8 + (8 - 1) + 2 ^ 31)) by lia.
  lia.
Qed.

(** X6.  A column is a bar: for a bin at level [idx], the lines below line
    [idx / TICKS] show the full glyph, the lines above it a blank, and
    that line the glyph [idx mod TICKS] of the table. *)
Theorem column_is_a_bar (rows line : Z) (minv maxv b : Q) (idx : Z) :
  1 <= rows < 2 ^ 28 -> 0 <= line < rows ->
  level minv maxv (levels rows) b = Some idx ->
  0 <= idx / TICKS < rows /\
  cell minv maxv (levels rows)
    (int (uint (line * TICKS)))
    (int (uint (int (uint (line * TICKS)) + (TICKS - 1)))) b
  = Ok (if idx / TICKS <? line then " "
        else if line <? idx / TICKS then "█"
        else nth (Z.to_nat (idx mod TICKS)) ticks "").
Proof.
  intros Hrows Hline E.
  destruct (line_indices rows line Hrows Hline) as [Elo Ehi].
  rewrite Ehi, Elo.
  assert (HL : 0 <= levels rows <= INT_MAX).
  { rewrite (levels_small rows Hrows). unfold TICKS, INT_MAX. lia. }
  pose proof (level_some_range minv maxv (levels rows) b idx HL E) as Hidx.
  rewrite (levels_small rows Hrows) in Hidx.
  unfold cell. rewrite E. unfold TICKS in *.
  pose proof (Z.div_mod idx 8 ltac:(lia)) as Hdm.
  pose proof (Z.mod_pos_bound idx 8 ltac:(lia)) as Hmod.
  split; [lia |]. f_equal.
  destruct (Z.ltb_spec idx (line * 8)); destruct (Z.ltb_spec (idx / 8) line);
    try lia; [reflexivity |].
  destruct (Z.gtb_spec idx (line * 8 + 7)); destruct (Z.ltb_spec line (idx / 8));
    try lia; [reflexivity |].
  do 2 f_equal. lia.
Qed.

Lemma column_is_a_bar_witness :
  0 <= 11 / TICKS < 3 /\
  cell 0 23 (levels 3)
    (int (uint (1 * TICKS)))
    (int (uint (int (uint (1 * TICKS)) + (TICKS - 1)))) 11
  = Ok (if 11 / TICKS <? 1 then " "
        else if 1 <? 11 / TICKS then "█"
        else nth (Z.to_nat (11 mod TICKS)) ticks "").
Proof.
  apply (column_is_a_bar 3 1 0 23 11 11); [lia | lia | vm_compute; reflexivity].
Defined.

(** ** Outcome of the render *)

Lemma zrange_cons (lo hi : Z) :
  lo < hi -> zrange lo hi = lo :: zrange (lo + 1) hi.
Proof.
  intros H. rewrite (zrange_split lo (lo + 1) hi) by lia.
  now rewrite zrange_single.
Qed.

Lemma rev_zrange (n : Z) :
  1 <= n -> rev (zrange 0 n) = (n - 1) :: rev (zrange 0 (n - 1)).
Proof.
  intros H. rewrite (zrange_split 0 (n - 1) n) by lia.
  replace (zrange (n - 1) n) with (zrange (n - 1) (n - 1 + 1))
    by (f_equal; lia).
  now rewrite zrange_single, rev_app_distr.
Qed.

Lemma int_small (z : Z) : 0 <= z < 2 ^ 31 -> int z = z.
Proof.
  intros H. unfold int. rewrite Z.mod_small by lia. lia.
Qed.


Section Outcome.

Variable TerminalWidth : Z.
Variable print_T : Q -> string.



End Outcome.


(** ** Shape of the plot *)

Lemma str_app_nil_r (s : string) : s ++ "" = s.
Proof.
  induction s as [| c s IH]; simpl; [reflexivity | now rewrite IH].
Qed.

Lemma concat_all_cons (x : string) (xs : list string) :
  concat_all (x :: xs) = x ++ concat_all xs.
Proof.
  unfold concat_all. simpl. destruct xs; [now rewrite str_app_nil_r | reflexivity].
Qed.

(** The results of a loop that succeeded, element by element. *)
Lemma mapM_inv {A B : Type} (f : A -> result B) (l : list A) (bs : list B) :
  mapM f l = Ok bs -> Forall2 (fun a b => f a = Ok b) l bs.
Proof.
  revert bs. induction l as [| a l IH]; intros bs; simpl.
  - intros E. injection E as <-. constructor.
  - destruct (f a) as [b | |] eqn:Ea; simpl; try discriminate.
    destruct (mapM f l) as [bs' | |] eqn:El; simpl; try discriminate.
    intros E. injection E as <-. constructor; [exact Ea | now apply IH].
Qed.

Lemma Ok_inj {A : Type} (a b : A) : Ok a = Ok b -> a = b.
Proof.
  intros E. now injection E.
Qed.

(** A cell is a blank or a glyph of the table: the table is never read
    outside its eight entries. *)
Lemma cell_glyph (minv maxv : Q) (L lo : Z) (b : Q) (g : string) :
  cell minv maxv L lo (lo + 7) b = Ok g -> g = " " \/ In g ticks.
Proof.
  unfold cell. destruct (level minv maxv L b) as [idx |]; [| discriminate].
  intros E. apply Ok_inj in E. subst g.
  destruct (Z.ltb_spec idx lo); [now left |]. right.
  destruct (Z.gtb_spec idx (lo + 7)).
  - apply nth_In. simpl. lia.
  - apply nth_In. unfold ticks. simpl List.length. lia.
Qed.

Lemma cells_glyphs (minv maxv : Q) (L lo : Z) (bs : list Q)
    (cells : list string) :
  mapM (cell minv maxv L lo (lo + 7)) bs = Ok cells ->
  List.length cells = List.length bs /\
  forall g, In g cells -> g = " " \/ In g ticks.
Proof.
  intros E. apply mapM_inv in E.
  induction E as [| b g bs cells Hg _ IH]; simpl.
  - split; [reflexivity | intros g []].
  - destruct IH as [Hlen Hall]. split; [now rewrite Hlen |].
    intros g' [<- | Hin]; [now apply (cell_glyph _ _ _ _ _ _ Hg) | now apply Hall].
Qed.

Section Shape.

Variable TerminalWidth : Z.
Variable print_T : Q -> string.

Lemma unboxed_lines (bs : list Q) (rows : Z) (minv maxv : Q) (n : nat)
    (strs : list string) :
  1 <= rows < 2 ^ 28 -> Z.of_nat n <= rows ->
  mapM (plot_line print_T bs rows false minv maxv)
    (rev (zrange 0 (Z.of_nat n))) = Ok strs ->
  exists lines : list (list string),
    List.length lines = n /\
    (forall cells, In cells lines ->
       List.length cells = List.length bs /\
       forall g, In g cells -> g = " " \/ In g ticks) /\
    concat_all strs = String.concat nl (map concat_all lines).
Proof.
  intros Hrows. revert strs. induction n as [| n IH]; intros strs Hn.
  - simpl. intros E. injection E as <-. exists []. 
    split; [reflexivity |]. split; [intros c [] | reflexivity].
  - rewrite rev_zrange by lia.
    replace (Z.of_nat (S n) - 1) with (Z.of_nat n) by lia.
    cbn [mapM]. unfold plot_line at 1.
    destruct (line_indices rows (Z.of_nat n) Hrows ltac:(lia)) as [Elo Ehi].
    rewrite Ehi, Elo.
    destruct (mapM _ bs) as [cells | |] eqn:Ec; cbn [bind]; try discriminate.
    destruct (mapM _ (rev _)) as [strs' | |] eqn:El; cbn [bind]; try discriminate.
    intros E. injection E as <-.
    destruct (IH strs' ltac:(lia) eq_refl) as [lines [Hlen [Hall Hcat]]].
    apply cells_glyphs in Ec.
    exists (cells :: lines). split; [simpl; now rewrite Hlen |].
    split.
    + intros c [<- | Hin]; [exact Ec | now apply Hall].
    + rewrite concat_all_cons, Hcat. cbn [map String.concat].
      destruct n as [| n].
      * destruct lines; [| discriminate Hlen].
        simpl. now rewrite !str_app_nil_r.
      * destruct lines as [| l0 lines]; [discriminate Hlen |].
        destruct (Z.gtb_spec (Z.of_nat (S n)) 0); [| lia].
        cbn [map]. now rewrite str_app_assoc.
Qed.

(** X8.  A plot without box is [rows] lines of [W] cells each, every cell a
    blank or a glyph of the table, the lines separated by a line feed and
    the last line not ended by one. *)
Theorem unboxed_plot_shape (data : list Q) (N rows cols : Z) (color : bool)
    (title : string) (minv maxv : Q) (s : string) :
  1 <= rows < 2 ^ 28 ->
  Sparkline TerminalWidth print_T data N rows cols false color title minv maxv
  = Ok s ->
  exists lines : list (list string),
    List.length lines = Z.to_nat rows /\
    (forall cells, In cells lines ->
       List.length cells
       = Z.to_nat (resolve_width TerminalWidth false cols N) /\
       forall g, In g cells -> g = " " \/ In g ticks) /\
    s = String.concat nl (map concat_all lines).
Proof.
  intros Hrows. unfold Sparkline.
  destruct (_ >? N); [discriminate |].
  unfold plot_lines. rewrite (int_small rows) by lia.
  destruct (mapM _ _) as [strs | |] eqn:E; cbn [bind]; try discriminate.
  intros Es. apply Ok_inj in Es. subst s.
  replace rows with (Z.of_nat (Z.to_nat rows)) in E at 2 by lia.
  apply unboxed_lines in E; [| exact Hrows | lia].
  destruct E as [lines [Hlen [Hall Hcat]]].
  exists lines. split; [exact Hlen |]. split.
  - intros cells Hin. destruct (Hall cells Hin) as [Hc Hg].
    split; [| exact Hg].
    rewrite Hc. unfold bins. now rewrite length_map, zrange_length, Z.sub_0_r.
  - cbn [append]. now rewrite str_app_nil_r.
Qed.

End Shape.

Lemma unboxed_plot_shape_witness :
  exists lines : list (list string),
    List.length lines = Z.to_nat 2 /\
    (forall cells, In cells lines ->
       List.length cells = Z.to_nat (resolve_width 80 false 0 3) /\
       forall g, In g cells -> g = " " \/ In g ticks) /\
    "  ▄" ++ nl ++ "▄██" = String.concat nl (map concat_all lines).
Proof.
  apply (unboxed_plot_shape 80 print_float [1; 2; 3]%Q 3 2 0 true "" 0 4);
    [lia | vm_compute; reflexivity].
Defined.

(** ** Range adapted to the data *)

Lemma std_min_cases (a b : Q) :
  (std_min a b <= a)%Q /\ (std_min a b <= b)%Q /\
  (std_min a b = a \/ std_min a b = b).
Proof.
  unfold std_min. destruct (Qlt_bool b a) eqn:E.
  - apply Qlt_bool_iff in E. repeat split; try lra. now right.
  - apply Qlt_bool_false in E. repeat split; try lra. now left.
Qed.

Lemma std_max_cases (a b : Q) :
  (a <= std_max a b)%Q /\ (b <= std_max a b)%Q /\
  (std_max a b = a \/ std_max a b = b).
Proof.
  unfold std_max. destruct (Qlt_bool a b) eqn:E.
  - apply Qlt_bool_iff in E. repeat split; try lra. now right.
  - apply Qlt_bool_false in E. repeat split; try lra. now left.
Qed.

(** The scan over the samples [l]: what it leaves in [minv] and [maxv]. *)
Lemma range_scan (data : list Q) (l : list Z) (mn mx : Q) :
  let r := fold_left
             (fun (acc : Q * Q) (i : Z) =>
                (std_min (fst acc) (at_index data i),
                 std_max (snd acc) (at_index data i)))
             l (mn, mx) in
  (fst r <= mn)%Q /\ (mx <= snd r)%Q /\
  (forall i, In i l -> (fst r <= at_index data i <= snd r)%Q) /\
  (fst r = mn \/ exists i, In i l /\ fst r = at_index data i) /\
  (snd r = mx \/ exists i, In i l /\ snd r = at_index data i).
Proof.
  revert mn mx. induction l as [| j l IH]; intros mn mx; cbn [fold_left fst snd].
  - split; [lra |]. split; [lra |]. split; [intros i [] |].
    split; now left.
  - specialize (IH (std_min mn (at_index data j)) (std_max mx (at_index data j))).
    cbv zeta in IH. destruct IH as [H1 [H2 [H3 [H4 H5]]]].
    destruct (std_min_cases mn (at_index data j)) as [Ma [Mb Mc]].
    destruct (std_max_cases mx (at_index data j)) as [Xa [Xb Xc]].
    set (r := fold_left _ l _) in *.
    split; [lra |]. split; [lra |]. split; [| split].
    + intros i [<- | Hin]; [lra | now apply H3].
    + destruct H4 as [E | [i [Hin E]]].
      * destruct Mc as [Mc | Mc]; [left; congruence |].
        right. exists j. split; [now left | congruence].
      * right. exists i. split; [now right | exact E].
    + destruct H5 as [E | [i [Hin E]]].
      * destruct Xc as [Xc | Xc]; [left; congruence |].
        right. exists j. split; [now left | congruence].
      * right. exists i. split; [now right | exact E].
Qed.

Lemma zrange_In_iff (lo hi i : Z) : In i (zrange lo hi) <-> lo <= i < hi.
Proof.
  split; [apply zrange_In |].
  intros H. unfold zrange. apply in_map_iff.
  exists (Z.to_nat (i - lo)). split; [lia |]. apply in_seq. lia.
Qed.

Lemma resolve_range_defaults (data : list Q) (N : Z) :
  resolve_range data N T_max T_min = data_range data N T_max T_min.
Proof.
  unfold resolve_range. rewrite std_min_self, std_max_self.
  now rewrite !Qeq_bool_refl.
Qed.

(** X9.  With neither bound supplied the range encloses every sample; its lower
    bound is the least sample, or the sentinel [T_max] when no sample is
    below it, and its upper bound the greatest sample, or the sentinel
    [T_min] when no sample is above it. *)
Theorem adapted_range_encloses_data (data : list Q) (N : Z) :
  let r := resolve_range data N T_max T_min in
  (forall i, 0 <= i < N -> (fst r <= at_index data i <= snd r)%Q) /\
  (fst r <= T_max)%Q /\ (T_min <= snd r)%Q /\
  (fst r = T_max \/ exists i, 0 <= i < N /\ fst r = at_index data i) /\
  (snd r = T_min \/ exists i, 0 <= i < N /\ snd r = at_index data i).
Proof.
  rewrite resolve_range_defaults. unfold data_range.
  destruct (range_scan data (zrange 0 N) T_max T_min)
    as [H1 [H2 [H3 [H4 H5]]]].
  cbv zeta. split; [| split; [exact H1 | split; [exact H2 | split]]].
  - intros i Hi. apply H3. now apply zrange_In_iff.
  - destruct H4 as [E | [i [Hin E]]]; [now left |].
    right. exists i. split; [now apply zrange_In_iff | exact E].
  - destruct H5 as [E | [i [Hin E]]]; [now left |].
    right. exists i. split; [now apply zrange_In_iff | exact E].
Qed.

(** X10.  A series without a sample above [T_min], the smallest positive normal
    number (a series of negative samples, say), gets [T_min] for upper
    bound, not its greatest sample. *)
Theorem adapted_maximum_is_positive (data : list Q) (N : Z) :
  (forall i, 0 <= i < N -> (at_index data i <= T_min)%Q) ->
  snd (resolve_range data N T_max T_min) = T_min.
Proof.
  intros Hd. rewrite resolve_range_defaults. unfold data_range.
  assert (G : forall l mn,
            (forall i, In i l -> (at_index data i <= T_min)%Q) ->
            snd (fold_left
                   (fun (acc : Q * Q) (i : Z) =>
                      (std_min (fst acc) (at_index data i),
                       std_max (snd acc) (at_index data i)))
                   l (mn, T_min)) = T_min).
  { induction l as [| j l IH]; intros mn Hl; cbn [fold_left fst snd];
      [reflexivity |].
    assert (E : std_max T_min (at_index data j) = T_min).
    { unfold std_max. destruct (Qlt_bool T_min (at_index data j)) eqn:B;
        [| reflexivity].
      apply Qlt_bool_iff in B. specialize (Hl j (or_introl eq_refl)). lra. }
    rewrite E. apply IH. intros i Hi. apply Hl. now right. }
  apply G. intros i Hi. apply Hd. now apply zrange_In_iff.
Qed.

Lemma adapted_maximum_is_positive_witness :
  snd (resolve_range [-3; -1; -2]%Q 3 T_max T_min) = T_min.
Proof.
  apply (adapted_maximum_is_positive [-3; -1; -2]%Q 3).
  intros i Hi.
  assert (Hcases : i = 0 \/ i = 1 \/ i = 2) by lia.
  destruct Hcases as [-> | [-> | ->]]; vm_compute; discriminate.
Defined.

(** X11.  An upper bound supplied below [T_min] (zero or a negative number, say)
    is not used: the render proceeds as if the upper bound had not been
    supplied. *)
Theorem low_maximum_is_discarded (data : list Q) (N : Z) (minv maxv : Q) :
  (maxv < T_min)%Q ->
  resolve_range data N minv maxv = resolve_range data N minv T_min.
Proof.
  intros H. unfold resolve_range. rewrite std_max_self.
  assert (E : std_max maxv T_min = T_min).
  { unfold std_max. destruct (Qlt_bool maxv T_min) eqn:B; [reflexivity |].
    apply Qlt_bool_false in B. lra. }
  now rewrite E.
Qed.

Lemma low_maximum_is_discarded_witness :
  resolve_range [-3; -1; -2]%Q 3 (-5) (-1)
  = resolve_range [-3; -1; -2]%Q 3 (-5) T_min.
Proof.
  apply (low_maximum_is_discarded [-3; -1; -2]%Q 3 (-5) (-1)). reflexivity.
Defined.

(** ** Width and failure *)

Section NoThrow.

Variable TerminalWidth : Z.
Variable print_T : Q -> string.

(** X12.  A render asked for no more columns than there are samples, or for no
    width at all, does not throw, whatever the terminal. *)
Theorem no_throw_within_samples (data : list Q) (N rows cols : Z)
    (box color : bool) (title : string) (minv maxv : Q) (what : string) :
  0 <= cols <= N ->
  Sparkline TerminalWidth print_T data N rows cols box color title minv maxv
  <> Throw what.
Proof.
  intros Hc. unfold Sparkline.
  pose proof (resolve_width_le_requested TerminalWidth box cols N) as Hw.
  destruct (Z.gtb_spec (resolve_width TerminalWidth box cols N) N) as [Hgt | _].
  - destruct (Z.eqb_spec cols 0); lia.
  - destruct (plot_lines _ _ _ _ _ _) as [lines | w |] eqn:E; cbn [bind];
      try discriminate.
    now destruct (plot_lines_no_throw _ _ _ _ _ _ _ E).
Qed.

End NoThrow.

Lemma no_throw_within_samples_witness :
  Sparkline 80 print_float [1; 2; 3]%Q 3 1 2 true true "" 0 4
  <> Throw "Woops! Not implemented..".
Proof.
  apply (no_throw_within_samples 80 print_float [1; 2; 3]%Q 3 1 2 true true
           "" 0 4). lia.
Defined.

(** ** Effective width and tick axis *)

(** X13.  On a terminal at least as wide as the box overhead, the effective
    width is the smaller of the width asked for (the number of samples
    when none is asked for) and what the terminal leaves: the terminal
    width, less [ENCLOSURE_WIDTH] with a box. *)
Theorem effective_width_bounds (tw : Z) (box : bool) (cols N : Z) :
  ENCLOSURE_WIDTH <= tw < 2 ^ 16 -> 0 <= cols -> 0 <= N ->
  let asked := if cols =? 0 then N else cols in
  let room := if box then tw - ENCLOSURE_WIDTH else tw in
  resolve_width tw box cols N = Z.min asked room /\
  0 <= resolve_width tw box cols N <= room.
Proof.
  intros Htw Hc HN asked room.
  pose proof (resolve_width_clamped tw box cols N Htw) as Hroom.
  pose proof (resolve_width_le_requested tw box cols N) as Hasked.
  fold room in Hroom. fold asked in Hasked.
  assert (Hasked0 : 0 <= asked) by (unfold asked; destruct (cols =? 0); lia).
  assert (E : resolve_width tw box cols N = Z.min asked room).
  { unfold resolve_width. fold asked.
    assert (Er : (if box then size_t (tw - ENCLOSURE_WIDTH) else tw) = room).
    { unfold room, size_t, ENCLOSURE_WIDTH, PREC in *. destruct box;
        [apply Z.mod_small; lia | reflexivity]. }
    rewrite Er. destruct (Z.ltb_spec room asked); lia. }
  split; [exact E |].
  assert (0 <= room) by (unfold room, ENCLOSURE_WIDTH, PREC in *; destruct box; lia).
  lia.
Qed.

Lemma effective_width_bounds_witness :
  let asked := if 1000 =? 0 then 2000 else 1000 in
  let room := if true then 80 - ENCLOSURE_WIDTH else 80 in
  resolve_width 80 true 1000 2000 = Z.min asked room /\
  0 <= resolve_width 80 true 1000 2000 <= room.
Proof.
  apply (effective_width_bounds 80 true 1000 2000);
    unfold ENCLOSURE_WIDTH, PREC; lia.
Defined.

(** X14.  In a plot at least one tick interval wide the ticks run from column 0,
    valued 0, to the last column, valued [N]; in between the columns
    increase and the values do not decrease. *)
Theorem ticks_run_from_zero_to_N (W N : Z) :
  x_ticks_separation N <= W < 2 ^ 64 -> 0 <= N ->
  let k := x_ticks_number W N in
  2 <= k /\
  nth 0 (x_ticks W N) 0 = 0 /\ nth 0 (x_ticks_values W N) 0 = 0 /\
  nth (Z.to_nat (k - 1)) (x_ticks W N) 0 = W - 1 /\
  nth (Z.to_nat (k - 1)) (x_ticks_values W N) 0 = N /\
  (forall i j, 0 <= i < j -> j < k ->
     nth (Z.to_nat i) (x_ticks W N) 0 < nth (Z.to_nat j) (x_ticks W N) 0 /\
     nth (Z.to_nat i) (x_ticks_values W N) 0
     <= nth (Z.to_nat j) (x_ticks_values W N) 0).
Proof.
  intros HW HN k.
  destruct (wide_plot_ticks W N HW) as [Hk [E0 [V0 [El [Vl Hin]]]]].
  fold k in Hk, El, Vl, Hin.
  pose proof (x_ticks_separation_min N) as Hs.
  assert (Hks : (k - 1) * x_ticks_separation N <= W).
  { unfold k, x_ticks_number.
    replace (W / x_ticks_separation N + 1 - 1)
      with (W / x_ticks_separation N) by lia.
    rewrite Z.mul_comm. apply Z.mul_div_le. lia. }
  repeat (split; [assumption |]).
  intros i j Hij Hj.
  destruct (Hin i ltac:(lia)) as [Xi Vi]. rewrite Xi, Vi.
  assert (Hdiv : forall a b, 0 <= a <= b -> a * N / k <= b * N / k).
  { intros a b Hab. apply Z.div_le_mono; nia. }
  destruct (Z_lt_le_dec j (k - 1)) as [Hlt | Hge].
  - destruct (Hin j ltac:(lia)) as [Xj Vj]. rewrite Xj, Vj.
    split; [nia | apply Hdiv; lia].
  - replace j with (k - 1) by lia. rewrite El, Vl. split; [nia |].
    apply Z.div_le_upper_bound; nia.
Qed.

Lemma ticks_run_from_zero_to_N_witness :
  let k := x_ticks_number 21 21 in
  2 <= k /\
  nth 0 (x_ticks 21 21) 0 = 0 /\ nth 0 (x_ticks_values 21 21) 0 = 0 /\
  nth (Z.to_nat (k - 1)) (x_ticks 21 21) 0 = 21 - 1 /\
  nth (Z.to_nat (k - 1)) (x_ticks_values 21 21) 0 = 21 /\
  (forall i j, 0 <= i < j -> j < k ->
     nth (Z.to_nat i) (x_ticks 21 21) 0 < nth (Z.to_nat j) (x_ticks 21 21) 0 /\
     nth (Z.to_nat i) (x_ticks_values 21 21) 0
     <= nth (Z.to_nat j) (x_ticks_values 21 21) 0).
Proof.
  apply (ticks_run_from_zero_to_N 21 21); [| lia].
  vm_compute. split; discriminate || reflexivity.
Defined.

(** ** Decimal length *)





(** ** Borders of the box *)

Lemma display_width_app (a b : string) :
  display_width (a ++ b) = display_width a + display_width b.
Proof.
  induction a as [| c a IH]; cbn [append display_width]; lia.
Qed.

Lemma display_width_replicate (k : nat) (s : string) :
  display_width (replicate k s) = Z.of_nat k * display_width s.
Proof.
  induction k as [| k IH]; cbn [replicate].
  - reflexivity.
  - rewrite display_width_app, IH. lia.
Qed.

Lemma display_width_ascii (s : string) :
  is_ascii s = true -> display_width s = strlen s.
Proof.
  unfold strlen. induction s as [| c s IH]; cbn [is_ascii display_width String.length].
  - reflexivity.
  - intros H. apply andb_prop in H. destruct H as [Hc Hs].
    rewrite (IH Hs). unfold is_continuation.
    apply Z.ltb_lt in Hc.
    destruct (Z.leb_spec 128 (Z.of_nat (nat_of_ascii c))); [lia |].
    cbn [andb]. lia.
Qed.

Lemma display_width_lower_border (xs columns : list Z) (next_tick : nat) :
  display_width (lower_border xs columns next_tick)
  = Z.of_nat (List.length columns).
Proof.
  revert next_tick. induction columns as [| i columns IH]; intros next_tick;
    cbn [lower_border List.length].
  - reflexivity.
  - destruct (i =? nth next_tick xs 0);
      rewrite display_width_app, IH; 
      [change (display_width BOX_H_BORDER_TICK) with 1
      | change (display_width BOX_H_BORDER) with 1]; lia.
Qed.

(** X16.  The upper and the lower border of the box span the same [W + 2]
    columns, corners included, when the title (of seven-bit characters)
    is not longer than the plot is wide; the upper border is followed by a
    line feed. *)
Theorem box_borders_width (W N : Z) (title : string) :
  0 <= W -> strlen title <= W -> is_ascii title = true ->
  display_width (top_border W title) = W + 2 + 1 /\
  display_width
    (BOX_SW_CORNER ++ lower_border (x_ticks W N) (zrange 0 W) 0
     ++ BOX_SE_CORNER) = W + 2.
Proof.
  intros HW Ht Ha. split.
  - unfold top_border. destruct (String.eqb title "") eqn:E.
    + rewrite !display_width_app, display_width_replicate.
      change (display_width BOX_NW_CORNER) with 1.
      change (display_width BOX_NE_CORNER) with 1.
      change (display_width BOX_H_BORDER) with 1.
      change (display_width nl) with 1. lia.
    + destruct (Z.gtb_spec (strlen title) W); [lia |].
      cbv zeta.
      rewrite !display_width_app, !display_width_replicate.
      rewrite (display_width_ascii title Ha).
      change (display_width BOX_NW_CORNER) with 1.
      change (display_width BOX_NE_CORNER) with 1.
      change (display_width BOX_H_BORDER) with 1.
      change (display_width nl) with 1.
      pose proof (Z.div_mod (W - strlen title) 2 ltac:(lia)).
      pose proof (Z.mod_pos_bound (W - strlen title) 2 ltac:(lia)).
      lia.
  - rewrite !display_width_app, display_width_lower_border, zrange_length.
    change (display_width BOX_SW_CORNER) with 1.
    change (display_width BOX_SE_CORNER) with 1. lia.
Qed.

Lemma box_borders_width_witness :
  display_width (top_border 21 "Gaussian") = 21 + 2 + 1 /\
  display_width
    (BOX_SW_CORNER ++ lower_border (x_ticks 21 21) (zrange 0 21) 0
     ++ BOX_SE_CORNER) = 21 + 2.
Proof.
  apply (box_borders_width 21 21 "Gaussian"); [lia | vm_compute; discriminate | reflexivity].
Defined.

(** X17.  A title that fits is centred in the upper border: the border glyphs
    left and right of it fill the width, and when they cannot be as many
    on both sides the one more is on the right. *)
Theorem title_is_centred (W : Z) (title : string) :
  1 <= strlen title <= W ->
  exists l r : nat,
    top_border W title
    = BOX_NW_CORNER ++ replicate l BOX_H_BORDER ++ title
      ++ replicate r BOX_H_BORDER ++ BOX_NE_CORNER ++ nl /\
    Z.of_nat l + strlen title + Z.of_nat r = W /\
    Z.of_nat l <= Z.of_nat r <= Z.of_nat l + 1.
Proof.
  intros Ht. unfold top_border.
  destruct (String.eqb_spec title "") as [-> | _].
  - unfold strlen in Ht. simpl in Ht. lia.
  - destruct (Z.gtb_spec (strlen title) W); [lia |]. cbv zeta.
    do 2 eexists. split; [reflexivity |].
    pose proof (Z.div_mod (W - strlen title) 2 ltac:(lia)).
    pose proof (Z.mod_pos_bound (W - strlen title) 2 ltac:(lia)).
    lia.
Qed.

Lemma title_is_centred_witness :
  exists l r : nat,
    top_border 21 "Gaussian"
    = BOX_NW_CORNER ++ replicate l BOX_H_BORDER ++ "Gaussian"
      ++ replicate r BOX_H_BORDER ++ BOX_NE_CORNER ++ nl /\
    Z.of_nat l + strlen "Gaussian" + Z.of_nat r = 21 /\
    Z.of_nat l <= Z.of_nat r <= Z.of_nat l + 1.
Proof.
  apply (title_is_centred 21 "Gaussian"). vm_compute. split; discriminate.
Defined.

(** ** Tick marks of the lower border *)

Lemma existsb_nth_false (xs : list Z) (c : Z) :
  (forall p, (p < List.length xs)%nat -> nth p xs 0 <> c) ->
  existsb (Z.eqb c) xs = false.
Proof.
  intros H. destruct (existsb (Z.eqb c) xs) eqn:E; [| reflexivity].
  apply existsb_exists in E. destruct E as [x [Hin Hx]].
  apply Z.eqb_eq in Hx. subst x.
  destruct (In_nth xs c 0 Hin) as [p [Hp Ep]].
  now destruct (H p Hp).
Qed.

Lemma existsb_nth_true (xs : list Z) (c : Z) (p : nat) :
  (p < List.length xs)%nat -> nth p xs 0 = c ->
  existsb (Z.eqb c) xs = true.
Proof.
  intros Hp E. apply existsb_exists. exists c.
  split; [rewrite <- E; now apply nth_In | apply Z.eqb_refl].
Qed.

(** The scan of the columns with the pointer [next_tick] into an
    increasing array of tick columns marks the columns of the array. *)
Lemma lower_border_scan (xs : list Z) (n : nat) :
  (forall p q, (p < q < List.length xs)%nat -> nth p xs 0 < nth q xs 0) ->
  forall (c : Z) (j : nat),
    0 <= c ->
    (forall p, (p < j)%nat -> (p < List.length xs)%nat -> nth p xs 0 < c) ->
    ((j < List.length xs)%nat -> c <= nth j xs 0) ->
    ((List.length xs <= j)%nat -> 0 < c) ->
    lower_border xs (zrange c (c + Z.of_nat n)) j
    = concat_all
        (map (fun i => if existsb (Z.eqb i) xs
                       then BOX_H_BORDER_TICK else BOX_H_BORDER)
           (zrange c (c + Z.of_nat n))).
Proof.
  intros Hsorted. induction n as [| n IH]; intros c j Hc P1 P2 P3.
  - rewrite zrange_empty by lia. reflexivity.
  - rewrite (zrange_cons c) by lia.
    replace (c + Z.of_nat (S n)) with (c + 1 + Z.of_nat n) by lia.
    cbn [lower_border map]. rewrite concat_all_cons.
    destruct (Z.eqb_spec c (nth j xs 0)) as [E | NE].
    + assert (Hj : (j < List.length xs)%nat).
      { destruct (Nat.lt_ge_cases j (List.length xs)) as [H | H]; [exact H |].
        rewrite nth_overflow in E by exact H. specialize (P3 H). lia. }
      rewrite (existsb_nth_true xs c j Hj (eq_sym E)).
      f_equal. apply IH; [lia | | |].
      * intros p Hp Hlen.
        destruct (Nat.eq_dec p j) as [-> | Hpj]; [lia |].
        specialize (P1 p ltac:(lia) Hlen). lia.
      * intros Hlen. specialize (Hsorted j (S j) ltac:(lia)). lia.
      * lia.
    + rewrite existsb_nth_false.
      * f_equal. apply IH; [lia | | |].
        -- intros p Hp Hlen. specialize (P1 p Hp Hlen). lia.
        -- intros Hlen. specialize (P2 Hlen). lia.
        -- lia.
      * intros p Hp Ep.
        destruct (Nat.lt_trichotomy p j) as [Hlt | [-> | Hgt]].
        -- specialize (P1 p Hlt Hp). lia.
        -- now apply NE.
        -- specialize (P2 ltac:(lia)).
           specialize (Hsorted j p ltac:(lia)). lia.
Qed.

(** The array of tick columns: [x_ticks_number] entries, multiples of the
    separation and the last column, increasing. *)
Lemma x_ticks_shape (W N : Z) :
  1 <= W < 2 ^ 64 ->
  let k := x_ticks_number W N in
  let s := x_ticks_separation N in
  1 <= k /\ (k - 1) * s <= W /\
  List.length (x_ticks W N) = Z.to_nat k /\
  (forall i, 0 <= i < k - 1 -> nth (Z.to_nat i) (x_ticks W N) 0 = i * s) /\
  nth (Z.to_nat (k - 1)) (x_ticks W N) 0 = W - 1.
Proof.
  intros HW k s. pose proof (x_ticks_separation_min N) as Hs. fold s in Hs.
  assert (Hq : 0 <= W / s) by (apply Z.div_pos; lia).
  assert (Hk : 1 <= k) by (unfold k, x_ticks_number; fold s; lia).
  assert (Hks : (k - 1) * s <= W).
  { unfold k, x_ticks_number. fold s.
    replace (W / s + 1 - 1) with (W / s) by lia.
    rewrite Z.mul_comm. apply Z.mul_div_le. lia. }
  assert (Hlen : List.length (map (fun i => i * s) (zrange 0 (k - 1)))
                 = Z.to_nat (k - 1)).
  { rewrite length_map, zrange_length. f_equal. lia. }
  split; [exact Hk |]. split; [exact Hks |].
  unfold x_ticks. fold s. fold k. split; [| split].
  - rewrite length_app, Hlen. simpl. lia.
  - intros i Hi. rewrite app_nth1 by (rewrite Hlen; lia).
    rewrite (nth_indep _ 0 (0 * s)) by (rewrite Hlen; lia).
    rewrite (map_nth (fun i => i * s)), zrange_nth by lia.
    f_equal. lia.
  - rewrite <- Hlen at 1. rewrite nth_middle.
    unfold size_t. apply Z.mod_small. lia.
Qed.

Lemma x_ticks_increasing (W N : Z) :
  1 <= W < 2 ^ 64 ->
  forall p q, (p < q < List.length (x_ticks W N))%nat ->
    nth p (x_ticks W N) 0 < nth q (x_ticks W N) 0.
Proof.
  intros HW p q Hpq.
  destruct (x_ticks_shape W N HW) as [Hk [Hks [Hlen [Hin Hlast]]]].
  cbv zeta in *. pose proof (x_ticks_separation_min N) as Hs.
  set (k := x_ticks_number W N) in *. set (s := x_ticks_separation N) in *.
  rewrite Hlen in Hpq.
  pose proof (Hin (Z.of_nat p) ltac:(lia)) as Ep. rewrite Nat2Z.id in Ep.
  rewrite Ep.
  destruct (Z_lt_le_dec (Z.of_nat q) (k - 1)) as [Hq | Hq].
  - pose proof (Hin (Z.of_nat q) ltac:(lia)) as Eq. rewrite Nat2Z.id in Eq.
    rewrite Eq. nia.
  - assert (Eq : q = Z.to_nat (k - 1)) by lia. rewrite Eq, Hlast. nia.
Qed.

(** X18.  The lower border marks exactly the tick columns: column [c] carries a
    tick mark when [c] is an entry of [x_ticks], a plain border
    otherwise. *)
Theorem lower_border_marks_ticks (W N : Z) :
  1 <= W < 2 ^ 64 ->
  lower_border (x_ticks W N) (zrange 0 W) 0
  = concat_all
      (map (fun c => if existsb (Z.eqb c) (x_ticks W N)
                     then BOX_H_BORDER_TICK else BOX_H_BORDER)
         (zrange 0 W)).
Proof.
  intros HW.
  destruct (x_ticks_shape W N HW) as [Hk [Hks [Hlen [Hin Hlast]]]].
  cbv zeta in *. pose proof (x_ticks_separation_min N) as Hs.
  pose proof (lower_border_scan (x_ticks W N) (Z.to_nat W)
                (x_ticks_increasing W N HW) 0 0%nat) as H.
  replace (0 + Z.of_nat (Z.to_nat W)) with W in H by lia.
  apply H.
  - lia.
  - intros p Hp. lia.
  - intros _.
    destruct (Z.eq_dec (x_ticks_number W N) 1) as [E | NE].
    + rewrite E in Hlast. simpl in Hlast. rewrite Hlast. lia.
    + pose proof (Hin 0 ltac:(lia)) as E0.
      change (Z.to_nat 0) with 0%nat in E0. rewrite E0. lia.
  - rewrite Hlen. lia.
Qed.

Lemma lower_border_marks_ticks_witness :
  lower_border (x_ticks 21 21) (zrange 0 21) 0
  = concat_all
      (map (fun c => if existsb (Z.eqb c) (x_ticks 21 21)
                     then BOX_H_BORDER_TICK else BOX_H_BORDER)
         (zrange 0 21)).
Proof.
  apply (lower_border_marks_ticks 21 21). split; [lia | reflexivity].
Defined.

(** ** TextDecorator: counting the set bits *)

Import TextDecorator.

Lemma ones_nonneg (n : Z) : 0 <= ones n.
Proof.
  destruct n as [| p | p]; cbn [ones]; try lia.
  induction p; cbn [pos_ones]; lia.
Qed.

Lemma ones_double (z : Z) : 0 <= z -> ones (2 * z) = ones z.
Proof.
  intros H. destruct z as [| p | p]; [reflexivity | reflexivity | lia].
Qed.

Lemma land_even_odd (a b : Z) : Z.land (2 * a) (2 * b + 1) = 2 * Z.land a b.
Proof.
  apply Z.bits_inj'. intros n Hn. rewrite Z.land_spec.
  destruct (Z.eq_dec n 0) as [-> | Hn0].
  - now rewrite !Z.testbit_even_0.
  - replace n with (Z.succ (n - 1)) by lia.
    rewrite !Z.testbit_even_succ, Z.testbit_odd_succ by lia.
    now rewrite Z.land_spec.
Qed.

Lemma land_odd_even (a : Z) : Z.land (2 * a + 1) (2 * a) = 2 * a.
Proof.
  apply Z.bits_inj'. intros n Hn. rewrite Z.land_spec.
  destruct (Z.eq_dec n 0) as [-> | Hn0].
  - now rewrite Z.testbit_even_0, andb_false_r.
  - replace n with (Z.succ (n - 1)) by lia.
    rewrite Z.testbit_even_succ, Z.testbit_odd_succ by lia.
    apply andb_diag.
Qed.

(** [n & (n-1)] has the bits of [n] but the lowest one set. *)
Lemma land_pred_ones (p : positive) :
  0 <= Z.land (Zpos p) (Zpos p - 1) < Zpos p /\
  ones (Z.land (Zpos p) (Zpos p - 1)) = ones (Zpos p) - 1.
Proof.
  induction p as [p IH | p IH |].
  - replace (Zpos p~1 - 1) with (2 * Zpos p) by lia.
    replace (Zpos p~1) with (2 * Zpos p + 1) by lia.
    rewrite land_odd_even. split; [lia |].
    rewrite ones_double by lia.
    change (ones (2 * Z.pos p + 1)) with (1 + ones (Zpos p)). lia.
  - replace (Zpos p~0 - 1) with (2 * (Zpos p - 1) + 1) by lia.
    replace (Zpos p~0) with (2 * Zpos p) by lia.
    rewrite land_even_odd. destruct IH as [IH0 IH1]. split; [lia |].
    rewrite ones_double by lia. rewrite IH1.
    change (ones (2 * Z.pos p)) with (ones (Zpos p)). lia.
  - split; [simpl; lia | reflexivity].
Qed.

Lemma pos_ones_bound (p : positive) : pos_ones p <= Z.log2 (Zpos p) + 1.
Proof.
  induction p as [p IH | p IH |]; cbn [pos_ones].
  - rewrite Pos2Z.inj_xI, Z.log2_succ_double by lia. lia.
  - rewrite Pos2Z.inj_xO, Z.log2_double by lia. lia.
  - reflexivity.
Qed.

Lemma ones_bound (n : Z) : 0 <= n < 2 ^ 32 -> ones n <= 32.
Proof.
  intros H. destruct n as [| p | p]; [simpl; lia | | lia].
  pose proof (pos_ones_bound p).
  assert (Z.log2 (Zpos p) < 32) by (apply Z.log2_lt_pow2; lia).
  simpl. lia.
Qed.

Lemma count_set_bits_spec (fuel : nat) (n active : Z) :
  0 <= n < 2 ^ 32 -> ones n <= Z.of_nat fuel ->
  0 <= active -> active + ones n < 2 ^ 32 ->
  count_set_bits fuel n active = (0, active + ones n).
Proof.
  revert n active. induction fuel as [| fuel IH]; intros n active Hn Hf Ha Hs.
  - destruct n as [| p | p]; [simpl; f_equal; lia | | lia].
    assert (1 <= pos_ones p).
    { destruct p as [q | q |]; cbn [pos_ones].
      - pose proof (ones_nonneg (Zpos q)) as Hq. cbn [ones] in Hq. lia.
      - clear. induction q; cbn [pos_ones] in *; lia.
      - lia. }
    cbn [ones] in Hf. lia.
  - cbn [count_set_bits]. destruct (Z.eqb_spec n 0) as [-> | Hn0].
    + simpl. f_equal. lia.
    + destruct n as [| p | p]; [lia | | lia].
      destruct (land_pred_ones p) as [H0 H1].
      unfold uint. rewrite (Z.mod_small (Zpos p - 1)) by lia.
      assert (H1' : 1 <= ones (Zpos p)).
      { pose proof (ones_nonneg (Z.land (Zpos p) (Zpos p - 1))). lia. }
      rewrite (Z.mod_small (active + 1)) by lia.
      rewrite IH; [f_equal; lia | lia | lia | lia | lia].
Qed.

(** X19.  The counting loop ends within the 32 iterations an [unsigned int]
    allows, with [n] at zero and [active] at the number of bits set in
    [format]. *)
Theorem count_set_bits_correct (format : Z) :
  0 <= format < 2 ^ 32 ->
  count_set_bits 32 format 0 = (0, ones format).
Proof.
  intros H. pose proof (ones_bound format H). pose proof (ones_nonneg format).
  rewrite count_set_bits_spec; [reflexivity | exact H | | lia | lia].
  change (Z.of_nat 32) with 32. lia.
Qed.

Lemma count_set_bits_correct_witness :
  count_set_bits 32 81 0 = (0, ones 81).
Proof.
  apply (count_set_bits_correct 81). split; [lia | reflexivity].
Defined.

(** ** TextDecorator: the escape sequence *)

Ltac each_format H :=
  repeat (destruct H as [H | H];
          [subst; vm_compute; reflexivity |]);
  try contradiction.

(** X20.  For a format made of the seven flags, [decorate] returns the input
    itself when the format is empty or the decorator is switched off and
    not overridden, and otherwise the input between the sequence
    [ESC [ p1 ; ... ; pk m], the SGR parameters of the flags set separated
    by semicolons, and the reset sequence [ESC [ m]. *)
Theorem decorate_sequence (TD : TextDecorator) (input : string) (format : Z)
    (override_action : bool) :
  0 <= format < 128 ->
  decorate TD input format override_action
  = if (format =? 0) || (negb (m_action TD) && negb override_action)
    then Ok input
    else Ok (CSI ++ String.concat ";" (sgr_parameters format) ++ "m"
             ++ input ++ CSI ++ "m").
Proof.
  intros H. unfold decorate.
  destruct ((format =? 0) || (negb (m_action TD) && negb override_action));
    [reflexivity |].
  assert (Hin : In format (zrange 0 128)) by (apply zrange_In_iff; lia).
  clear H. vm_compute in Hin. each_format Hin.
Qed.

Lemma decorate_sequence_witness :
  decorate (mkTextDecorator true false) "Hello World" 17 false
  = Ok (CSI ++ "31;1m" ++ "Hello World" ++ CSI ++ "m").
Proof.
  apply (decorate_sequence (mkTextDecorator true false) "Hello World" 17 false).
  lia.
Defined.

(** X21.  The deprecated overload adds the codes of its two arguments: given two
    different flags, or no flag for one of them, it decorates as their
    combination with bitwise or does. *)
Theorem decorate_legacy_combines (TD : TextDecorator) (input : string)
    (color face : Value) (override_action : bool) :
  color <> face \/ color = Default ->
  decorate_legacy TD input color face override_action
  = decorate TD input (Z.lor (code color) (code face)) override_action.
Proof.
  intros H. unfold decorate_legacy. f_equal.
  destruct color, face; try reflexivity; destruct H as [H | H];
    try discriminate; now destruct H.
Qed.

Lemma decorate_legacy_combines_witness :
  decorate_legacy (mkTextDecorator true false) "x" Red Bold false
  = decorate (mkTextDecorator true false) "x" (Z.lor (code Red) (code Bold))
      false.
Proof.
  apply (decorate_legacy_combines (mkTextDecorator true false) "x" Red Bold
           false).
  left. discriminate.
Defined.

(** ** The program *)

Section Program.

Variable atof : string -> Q.
Variable atoi : string -> Z.
Variable TerminalWidth : Z.
Variable print_T : Q -> string.

Lemma kept_refl (args : list string) (s : Main.Settings) : kept args s s.
Proof.
  unfold kept. tauto.
Qed.

Ltac value_option IH rest Hlen E :=
  destruct rest as [| v rest']; 
  [ injection E as <-; apply kept_refl
  | apply IH in E; [| simpl in Hlen |- *; lia];
    unfold kept in *; cbn [In Main.maxv Main.minv Main.height Main.width
                            Main.title Main.box Main.color] in *;
    intuition (try congruence) ].

Lemma parse_keeps (n : nat) :
  forall args s s',
    (List.length args <= n)%nat ->
    Main.parse atof atoi args s = Main.Run s' -> kept args s s'.
Proof.
  induction n as [| n IH]; intros args s s' Hlen E.
  - destruct args; [| simpl in Hlen; lia].
    injection E as <-. apply kept_refl.
  - destruct args as [| arg rest].
    + injection E as <-. apply kept_refl.
    + cbn [Main.parse] in E.
      destruct (String.eqb arg "-h" || String.eqb arg "--help");
        [discriminate |].
      destruct (String.eqb_spec arg "--max") as [-> | N1];
        [value_option IH rest Hlen E |].
      destruct (String.eqb_spec arg "--min") as [-> | N2];
        [value_option IH rest Hlen E |].
      destruct (String.eqb_spec arg "--height") as [-> | N3];
        [value_option IH rest Hlen E |].
      destruct (String.eqb_spec arg "--width") as [-> | N4];
        [value_option IH rest Hlen E |].
      destruct (String.eqb_spec arg "--title") as [-> | N5];
        [value_option IH rest Hlen E |].
      destruct (String.eqb_spec arg "--no-box") as [-> | N6].
      { apply IH in E; [| simpl in Hlen; lia].
        unfold kept in *; cbn [In Main.maxv Main.minv Main.height Main.width
                                Main.title Main.box Main.color] in *;
        intuition (try congruence). }
      destruct (String.eqb_spec arg "--no-color") as [-> | N7].
      { apply IH in E; [| simpl in Hlen; lia].
        unfold kept in *; cbn [In Main.maxv Main.minv Main.height Main.width
                                Main.title Main.box Main.color] in *;
        intuition (try congruence). }
      apply IH in E; [| simpl in Hlen; lia].
      unfold kept in *; cbn [In] in *. intuition (try congruence).
Qed.

(** X22.  An option that is not among the arguments leaves its setting at the
    initial value. *)
Theorem settings_default (args : list string) (s : Main.Settings) :
  Main.parse atof atoi args Main.initial = Main.Run s ->
  (~ In "--max" args -> Main.maxv s = T_min) /\
  (~ In "--min" args -> Main.minv s = T_max) /\
  (~ In "--height" args -> Main.height s = 10) /\
  (~ In "--width" args -> Main.width s = 0) /\
  (~ In "--title" args -> Main.title s = "SimplePlot") /\
  (~ In "--no-box" args -> Main.box s = true) /\
  (~ In "--no-color" args -> Main.color s = true).
Proof.
  intros E. exact (parse_keeps (List.length args) args _ _ (le_n _) E).
Qed.

(** X23.  Without the option [--width] the program does not end by the exception
    of the render, however few the samples and whatever the terminal. *)
Theorem main_without_width_does_not_throw (argv0 : string)
    (args : list string) (data : list Q) (what : string) :
  ~ In "--width" args ->
  Main.main atof atoi TerminalWidth print_T argv0 args data <> Throw what.
Proof.
  intros Hw. unfold Main.main.
  destruct (Main.parse atof atoi args Main.initial) as [| s] eqn:E.
  - unfold ShowExampleGaussian, Sparkline_vector_config, Sparkline_vector,
      Sparkline.
    cbn [this_many_lines_high this_many_characters_wide enclose_in_box
         print_colored title minv maxv setHeight setMin setMax setBox
         setTitle setColor default_Configuration].
    pose proof (resolve_width_le_requested TerminalWidth true 0
                  (Z.of_nat (List.length gaussian_data_vec))) as Hle.
    cbn [Z.eqb] in Hle.
    destruct (Z.gtb_spec
                (resolve_width TerminalWidth true 0
                   (Z.of_nat (List.length gaussian_data_vec)))
                (Z.of_nat (List.length gaussian_data_vec))) as [Hgt | _];
      [lia |].
    destruct (plot_lines _ _ _ _ _ _) as [lines | w |] eqn:El; cbn [bind];
      try discriminate.
    now destruct (plot_lines_no_throw _ _ _ _ _ _ _ El).
  - destruct (parse_keeps (List.length args) args _ _ (le_n _) E)
      as [_ [_ [_ [Hwidth _]]]].
    rewrite (Hwidth Hw). cbn [Main.width Main.initial].
    change (size_t 0) with 0. unfold Sparkline.
    pose proof (resolve_width_le_requested TerminalWidth (Main.box s) 0
                  (Z.of_nat (List.length data))) as Hle.
    cbn [Z.eqb] in Hle.
    destruct (Z.gtb_spec
                (resolve_width TerminalWidth (Main.box s) 0
                   (Z.of_nat (List.length data)))
                (Z.of_nat (List.length data))) as [Hgt | _]; [lia |].
    destruct (plot_lines _ _ _ _ _ _) as [lines | w |] eqn:El; cbn [bind];
      try discriminate.
    now destruct (plot_lines_no_throw _ _ _ _ _ _ _ El).
Qed.

End Program.

Lemma settings_default_witness :
  (~ In "--max" ["--min"; "0"; "--no-box"] -> Main.maxv (Main.mkSettings T_min 0 10 0 "SimplePlot" false true) = T_min) /\
  (~ In "--min" ["--min"; "0"; "--no-box"] -> Main.minv (Main.mkSettings T_min 0 10 0 "SimplePlot" false true) = T_max) /\
  (~ In "--height" ["--min"; "0"; "--no-box"] -> Main.height (Main.mkSettings T_min 0 10 0 "SimplePlot" false true) = 10) /\
  (~ In "--width" ["--min"; "0"; "--no-box"] -> Main.width (Main.mkSettings T_min 0 10 0 "SimplePlot" false true) = 0) /\
  (~ In "--title" ["--min"; "0"; "--no-box"] -> Main.title (Main.mkSettings T_min 0 10 0 "SimplePlot" false true) = "SimplePlot") /\
  (~ In "--no-box" ["--min"; "0"; "--no-box"] -> Main.box (Main.mkSettings T_min 0 10 0 "SimplePlot" false true) = true) /\
  (~ In "--no-color" ["--min"; "0"; "--no-box"] -> Main.color (Main.mkSettings T_min 0 10 0 "SimplePlot" false true) = true).
Proof.
  apply (settings_default (fun _ => 0%Q) (fun _ => 0) ["--min"; "0"; "--no-box"]).
  reflexivity.
Defined.

Lemma main_without_width_does_not_throw_witness :
  Main.main (fun _ => 0%Q) (fun _ => 0) 80 print_float "simpleplot"
    ["--no-box"] [1; 2; 3]%Q
  <> Throw "Woops! Not implemented..".
Proof.
  apply (main_without_width_does_not_throw (fun _ => 0%Q) (fun _ => 0) 80
           print_float "simpleplot" ["--no-box"] [1; 2; 3]%Q).
  vm_compute. intros [H | []]. discriminate.
Defined.


(** ** Shape of the boxed plot *)

Section BoxedShape.

Variable TerminalWidth : Z.
Variable print_T : Q -> string.

Lemma boxed_lines (bs : list Q) (rows : Z) (minv maxv : Q) (n : nat)
    (strs : list string) :
  1 <= rows < 2 ^ 28 -> Z.of_nat n <= rows ->
  mapM (plot_line print_T bs rows true minv maxv)
    (rev (zrange 0 (Z.of_nat n))) = Ok strs ->
  exists lines : list (list string),
    List.length lines = n /\
    (forall cells, In cells lines ->
       List.length cells = List.length bs /\
       forall g, In g cells -> g = " " \/ In g ticks) /\
    concat_all strs
    = String.concat nl
        (map (fun p => BOX_V_BORDER ++ concat_all (snd p)
                       ++ right_border print_T rows (fst p) minv maxv)
           (combine (rev (zrange 0 (Z.of_nat n))) lines)).
Proof.
  intros Hrows. revert strs. induction n as [| n IH]; intros strs Hn.
  - simpl. intros E. apply Ok_inj in E. subst strs. exists [].
    split; [reflexivity |]. split; [intros c [] | reflexivity].
  - rewrite rev_zrange by lia.
    replace (Z.of_nat (S n) - 1) with (Z.of_nat n) by lia.
    cbn [mapM]. unfold plot_line at 1.
    destruct (line_indices rows (Z.of_nat n) Hrows ltac:(lia)) as [Elo Ehi].
    rewrite Ehi, Elo.
    destruct (mapM _ bs) as [cells | |] eqn:Ec; cbn [bind]; try discriminate.
    destruct (mapM _ (rev _)) as [strs' | |] eqn:El; cbn [bind]; try discriminate.
    intros E. apply Ok_inj in E. subst strs.
    destruct (IH strs' ltac:(lia) eq_refl) as [lines [Hlen [Hall Hcat]]].
    apply cells_glyphs in Ec.
    exists (cells :: lines). split; [simpl; now rewrite Hlen |].
    split.
    + intros c [<- | Hin]; [exact Ec | now apply Hall].
    + rewrite concat_all_cons, Hcat. cbn [combine map String.concat fst snd].
      destruct n as [| n].
      * destruct lines; [| discriminate Hlen].
        simpl combine. cbn [map String.concat].
        destruct (Z.gtb_spec (Z.of_nat 0) 0); [lia |].
        now rewrite !str_app_nil_r.
      * destruct lines as [| l0 lines]; [discriminate Hlen |].
        rewrite rev_zrange by lia. cbn [combine map].
        destruct (Z.gtb_spec (Z.of_nat (S n)) 0); [| lia].
        now rewrite !str_app_assoc.
Qed.

(** X24.  A boxed render that returns is made of the upper border, [rows] lines
    and the lower border with the tick values; each line is the left
    border, exactly [W] cells (blanks or glyphs of the table) and the right
    border with the value mark of the line; the lines are separated by a
    line feed. *)
Theorem boxed_plot_shape (data : list Q) (N rows cols : Z) (color : bool)
    (title : string) (minv maxv : Q) (s : string) :
  1 <= rows < 2 ^ 28 ->
  Sparkline TerminalWidth print_T data N rows cols true color title minv maxv
  = Ok s ->
  let W := resolve_width TerminalWidth true cols N in
  let range := resolve_range data N minv maxv in
  exists lines : list (list string),
    List.length lines = Z.to_nat rows /\
    (forall cells, In cells lines ->
       List.length cells = Z.to_nat W /\
       forall g, In g cells -> g = " " \/ In g ticks) /\
    s = top_border W title
        ++ String.concat nl
             (map (fun p => BOX_V_BORDER ++ concat_all (snd p)
                            ++ right_border print_T rows (fst p)
                                 (fst range) (snd range))
                (combine (rev (zrange 0 rows)) lines))
        ++ bottom_box W N.
Proof.
  intros Hrows. unfold Sparkline.
  destruct (_ >? N); [discriminate |].
  unfold plot_lines. rewrite (int_small rows) by lia.
  destruct (mapM _ _) as [strs | |] eqn:E; cbn [bind]; try discriminate.
  intros Es. apply Ok_inj in Es. subst s. cbv zeta.
  replace rows with (Z.of_nat (Z.to_nat rows)) in E at 2 by lia.
  apply boxed_lines in E; [| exact Hrows | lia].
  destruct E as [lines [Hlen [Hall Hcat]]].
  rewrite Z2Nat.id in Hcat by lia.
  exists lines. split; [exact Hlen |]. split.
  - intros cells Hin. destruct (Hall cells Hin) as [Hc Hg].
    split; [| exact Hg].
    rewrite Hc. unfold bins. now rewrite length_map, zrange_length, Z.sub_0_r.
  - now rewrite Hcat.
Qed.

End BoxedShape.

Lemma boxed_plot_shape_witness :
  let W := resolve_width 80 true 0 3 in
  let range := resolve_range [1; 2; 3]%Q 3 0 4 in
  exists lines : list (list string),
    List.length lines = Z.to_nat 2 /\
    (forall cells, In cells lines ->
       List.length cells = Z.to_nat W /\
       forall g, In g cells -> g = " " \/ In g ticks) /\
    "╭───╮" ++ nl ++ "│  ▄├ max: 4" ++ nl ++ "│▄██├ min: 0" ++ nl
    ++ "╰──┬╯" ++ nl ++ " 3  3" ++ nl
    = top_border W ""
      ++ String.concat nl
           (map (fun p => BOX_V_BORDER ++ concat_all (snd p)
                          ++ right_border print_float 2 (fst p)
                               (fst range) (snd range))
              (combine (rev (zrange 0 2)) lines))
      ++ bottom_box W 3.
Proof.
  apply (boxed_plot_shape 80 print_float [1; 2; 3]%Q 3 2 0 true "" 0 4);
    [lia | vm_compute; reflexivity].
Defined.

